(** * STM M24C serial EEPROM driver (eeprom_m24c.h)

    A shallow embedding of the driver.  The I2C transport is the abstract
    interface [I2C_M24C] of the header, the driver is written against any
    implementation of it, and a recording implementation driven by a script
    of answers gives the sequence of calls the driver makes on the bus. *)

From Stdlib Require Import ZArith List Bool Lia.
Import ListNotations.

Local Open Scope Z_scope.

(** ** Fixed-width integers

    [uint8_t] and [uint16_t] values are integers with the wrap-around of a
    conversion written out. *)

Definition uint8 (z : Z) : Z := z mod 256.
Definition uint16 (z : Z) : Z := z mod 65536.

(** ** The transport interface *)

Module I2C.

(** [enum I2CMode] *)
Inductive I2CMode : Type :=
| TX
| RX.

(** [class I2C_M24C]: the pure virtual methods, each one a transformer
    of the implementation's state [Bus].  [ReadMultipleBytes] receives the
    caller's buffer pointer, so it also transforms the memory. *)
Class I2C_M24C (Bus : Type) : Type := {
  Init : Bus -> Bus;
  StartPolling : Z -> I2CMode -> bool -> Bus -> Bus;
  IsStateError : Bus -> bool * Bus;
  ReadByte : Bus -> Z * Bus;
  ReadHalfWord : Bus -> Z * Bus;
  ReadMultipleBytes : Z -> Z -> Bus -> (Z -> Z) -> Bus * (Z -> Z);
  WriteByte : Z -> Bus -> Bus;
  Stop : Bus -> Bus
}.

End I2C.

Import I2C.

(** ** Geometry profiles *)

(** [enum class EepromM24CModel] *)
Inductive EepromM24CModel : Type :=
| M24C16.

(** [struct EepromModelTraits<model>] *)
Definition PAGE_SIZE (model : EepromM24CModel) : Z :=
  match model with
  | M24C16 => 16
  end.

Definition MEMORY_SIZE (model : EepromM24CModel) : Z :=
  match model with
  | M24C16 => 2048
  end.

(** ** The machine the driver runs on

    The driver holds a reference to the transport ([i2c]); the buffers its
    callers pass by pointer live in a byte-addressed memory ([ram]). *)

Record world (Bus : Type) : Type := World {
  i2c : Bus;
  ram : Z -> Z
}.

Arguments World {Bus} _ _.
Arguments i2c {Bus} _.
Arguments ram {Bus} _ _.

(** A call either returns a value or is still inside a retry loop when the
    budget of loop iterations is used up. *)
Inductive outcome (A : Type) : Type :=
| Returned (a : A)
| Looping.

Arguments Returned {A} _.
Arguments Looping {A}.

Definition is_returned {A : Type} (o : outcome A) : bool :=
  match o with
  | Returned _ => true
  | Looping => false
  end.

Definition M (Bus A : Type) : Type := world Bus -> outcome A * world Bus.

Definition ret {Bus A : Type} (a : A) : M Bus A := fun w => (Returned a, w).

Definition bind {Bus A B : Type} (m : M Bus A) (f : A -> M Bus B) : M Bus B :=
  fun w =>
    match m w with
    | (Returned a, w') => f a w'
    | (Looping, w') => (Looping, w')
    end.

Notation "x <- m ;; f" := (bind m (fun x => f))
  (at level 61, m at next level, right associativity).
Notation "m ;; f" := (bind m (fun _ => f))
  (at level 61, right associativity).

(** [do { body } while (cond);] with at most [fuel] iterations.  The value
    of the loop is the value of its last iteration. *)
Fixpoint do_while {Bus A : Type} (fuel : nat) (body : M Bus A) (cond : M Bus bool)
  : M Bus A :=
  match fuel with
  | O => fun w => (Looping, w)
  | S fuel' =>
      a <- body ;;
      c <- cond ;;
      if c then do_while fuel' body cond else ret a
  end.

(** [for (i = init; test(i); i = next(i)) body(i);] with at most [n]
    evaluations of the test. *)
Fixpoint for_loop {Bus : Type} (n : nat) (i : Z) (test : Z -> bool)
    (next : Z -> Z) (body : Z -> M Bus unit) : M Bus unit :=
  match n with
  | O => fun w => (Looping, w)
  | S n' =>
      if test i
      then body i ;; for_loop n' (next i) test next body
      else ret tt
  end.

(** ** The driver *)

Module EepromM24C.

Section Driver.

Variable model : EepromM24CModel.
Context {Bus : Type} {transport : I2C_M24C Bus}.

(** Calls through the reference [i2c]. *)
Definition i2c_Init : M Bus unit :=
  fun w => (Returned tt, World (Init (i2c w)) (ram w)).

Definition i2c_StartPolling (device_id : Z) (mode : I2CMode)
    (set_pos_bit : bool) : M Bus unit :=
  fun w =>
    (Returned tt, World (StartPolling device_id mode set_pos_bit (i2c w)) (ram w)).

Definition i2c_IsStateError : M Bus bool :=
  fun w =>
    let (e, s) := IsStateError (i2c w) in
    (Returned e, World s (ram w)).

Definition i2c_ReadByte : M Bus Z :=
  fun w =>
    let (v, s) := ReadByte (i2c w) in
    (Returned (uint8 v), World s (ram w)).

Definition i2c_ReadHalfWord : M Bus Z :=
  fun w =>
    let (v, s) := ReadHalfWord (i2c w) in
    (Returned (uint16 v), World s (ram w)).

Definition i2c_ReadMultipleBytes (output size : Z) : M Bus unit :=
  fun w =>
    let (s, r) := ReadMultipleBytes output size (i2c w) (ram w) in
    (Returned tt, World s r).

Definition i2c_WriteByte (data : Z) : M Bus unit :=
  fun w => (Returned tt, World (WriteByte data (i2c w)) (ram w)).

Definition i2c_Stop : M Bus unit :=
  fun w => (Returned tt, World (Stop (i2c w)) (ram w)).

(** [*(data + i)] *)
Definition deref (p : Z) : M Bus Z :=
  fun w => (Returned (ram w p), w).

Definition DEVICE_ID : Z := 160.              (* 0b10100000 *)
Definition CHIP_ENABLE_ADRESS_MASK : Z := 14. (* 0b00001110 *)
Definition CHIP_ENABLE_ADRESS_SHIFT : Z := 7.

Definition HandleDeviceSelectCode (address : Z) : Z :=
  uint8 (Z.lor DEVICE_ID
           (Z.land (Z.shiftr address CHIP_ENABLE_ADRESS_SHIFT)
                   CHIP_ENABLE_ADRESS_MASK)).

Definition WriteByte (fuel : nat) (address value : Z) : M Bus unit :=
  let device_code := HandleDeviceSelectCode address in
  do_while fuel
    (e <- i2c_IsStateError ;;
     (if e then i2c_Init else ret tt) ;;
     i2c_StartPolling device_code TX false ;;
     i2c_WriteByte (uint8 address) ;;
     i2c_WriteByte value ;;
     i2c_Stop)
    i2c_IsStateError.

Definition WriteHalfWord (fuel : nat) (address value : Z) : M Bus unit :=
  let device_code := HandleDeviceSelectCode address in
  do_while fuel
    (e <- i2c_IsStateError ;;
     (if e then i2c_Init else ret tt) ;;
     i2c_StartPolling device_code TX false ;;
     i2c_WriteByte (uint8 address) ;;
     i2c_WriteByte (uint8 value) ;;
     i2c_WriteByte (uint8 (Z.shiftr value 8)) ;;
     i2c_Stop)
    i2c_IsStateError.

(** The loop counter of [WritePage] is a [uint8_t]: 256 evaluations of
    the test are enough for every [data_size] of that type. *)
Definition WritePage (fuel : nat) (data address data_size : Z) : M Bus unit :=
  let device_code := HandleDeviceSelectCode address in
  do_while fuel
    (e <- i2c_IsStateError ;;
     (if e then i2c_Init else ret tt) ;;
     i2c_StartPolling device_code TX false ;;
     i2c_WriteByte (uint8 address) ;;
     for_loop 256 0 (fun i => i <? data_size) (fun i => uint8 (i + 1))
       (fun i => b <- deref (data + i) ;; i2c_WriteByte b) ;;
     i2c_Stop)
    i2c_IsStateError.

(** [while (remaining_full_pages >= 1) { ...; remaining_full_pages--; }]
    yields the advanced [data] and [address]. *)
Fixpoint WriteBlock_loop (fuel : nat) (remaining_full_pages : nat)
    (data address : Z) : M Bus (Z * Z) :=
  match remaining_full_pages with
  | O => ret (data, address)
  | S remaining =>
      WritePage fuel data address (PAGE_SIZE model) ;;
      WriteBlock_loop fuel remaining
        (data + PAGE_SIZE model) (uint16 (address + PAGE_SIZE model))
  end.

Definition WriteBlock (fuel : nat) (data address data_size : Z) : M Bus unit :=
  let remaining_full_pages := uint16 (data_size / PAGE_SIZE model) in
  da <- WriteBlock_loop fuel (Z.to_nat remaining_full_pages) data address ;;
  WritePage fuel (fst da) (snd da) (uint8 (data_size mod PAGE_SIZE model)).

Definition ReadByte (fuel : nat) (address : Z) : M Bus Z :=
  let device_code := HandleDeviceSelectCode address in
  do_while fuel
    (e <- i2c_IsStateError ;;
     (if e then i2c_Init else ret tt) ;;
     i2c_StartPolling device_code TX false ;;
     i2c_WriteByte (uint8 address) ;;
     i2c_StartPolling device_code RX false ;;
     read_value <- i2c_ReadByte ;;
     ret read_value)
    i2c_IsStateError.

Definition ReadHalfWord (fuel : nat) (address : Z) : M Bus Z :=
  let device_code := HandleDeviceSelectCode address in
  do_while fuel
    (e <- i2c_IsStateError ;;
     (if e then i2c_Init else ret tt) ;;
     i2c_StartPolling device_code TX true ;;
     i2c_WriteByte (uint8 address) ;;
     i2c_StartPolling device_code RX false ;;
     read_value <- i2c_ReadHalfWord ;;
     ret read_value)
    i2c_IsStateError.

Definition ReadBlock (fuel : nat) (data address data_size : Z) : M Bus unit :=
  let device_code := HandleDeviceSelectCode address in
  do_while fuel
    (e <- i2c_IsStateError ;;
     (if e then i2c_Init else ret tt) ;;
     i2c_StartPolling device_code TX false ;;
     i2c_WriteByte (uint8 address) ;;
     i2c_StartPolling device_code RX false ;;
     i2c_ReadMultipleBytes data data_size)
    i2c_IsStateError.

Definition ErasePage (fuel : nat) (address : Z) : M Bus unit :=
  let device_code := HandleDeviceSelectCode address in
  do_while fuel
    (e <- i2c_IsStateError ;;
     (if e then i2c_Init else ret tt) ;;
     i2c_StartPolling device_code TX false ;;
     i2c_WriteByte (uint8 address) ;;
     for_loop 256 0 (fun i => i <? PAGE_SIZE model) (fun i => uint8 (i + 1))
       (fun _ => i2c_WriteByte 255) ;;
     i2c_Stop)
    i2c_IsStateError.

(** The counter of [ChipErase] is an [int] that grows by [PAGE_SIZE] up
    to [MEMORY_SIZE]: [MEMORY_SIZE + 1] evaluations of the test are
    enough.  [ErasePage] takes it as a [uint16_t]. *)
Definition ChipErase (fuel : nat) : M Bus unit :=
  for_loop (S (Z.to_nat (MEMORY_SIZE model))) 0
    (fun i => i <? MEMORY_SIZE model) (fun i => i + PAGE_SIZE model)
    (fun i => ErasePage fuel (uint16 i)).

End Driver.

End EepromM24C.

(** ** A recording transport

    The implementation of [I2C_M24C] used to observe the driver: its state
    is the list of the calls made so far, oldest first, and its answers are
    taken from a script that may depend on everything that happened
    before.  Every deterministic transport answers this way. *)

Module Recorder.

Inductive event : Type :=
| Init_ev
| StartPolling_ev (device_id : Z) (mode : I2CMode) (set_pos_bit : bool)
| IsStateError_ev (answer : bool)
| ReadByte_ev
| ReadHalfWord_ev
| ReadMultipleBytes_ev (output size : Z)
| WriteByte_ev (data : Z)
| Stop_ev.

Record Script : Type := {
  err : list event -> bool;
  byte_in : list event -> Z;
  halfword_in : list event -> Z;
  bytes_in : list event -> Z -> Z
}.

(** The memory after [size] received bytes were stored from [output] on. *)
Definition store_bytes (sc : Script) (h : list event) (output size : Z)
    (r : Z -> Z) : Z -> Z :=
  fun p =>
    if (output <=? p) && (p <? output + size)
    then uint8 (bytes_in sc h (p - output))
    else r p.

Definition bus (sc : Script) : I2C_M24C (list event) := {|
  Init h := h ++ [Init_ev];
  StartPolling device_id mode set_pos_bit h :=
    h ++ [StartPolling_ev device_id mode set_pos_bit];
  IsStateError h := (err sc h, h ++ [IsStateError_ev (err sc h)]);
  ReadByte h := (byte_in sc h, h ++ [ReadByte_ev]);
  ReadHalfWord h := (halfword_in sc h, h ++ [ReadHalfWord_ev]);
  ReadMultipleBytes output size h r :=
    (h ++ [ReadMultipleBytes_ev output size], store_bytes sc h output size r);
  WriteByte data h := h ++ [WriteByte_ev data];
  Stop h := h ++ [Stop_ev]
|}.

(** A transport that never reports an error, one that always does, and
    one that reports an error exactly at the histories of length [n]. *)
Definition never_fails : Script :=
  {| err := fun _ => false;
     byte_in := fun _ => 0;
     halfword_in := fun _ => 0;
     bytes_in := fun _ _ => 0 |}.

Definition always_fails : Script :=
  {| err := fun _ => true;
     byte_in := fun _ => 0;
     halfword_in := fun _ => 0;
     bytes_in := fun _ _ => 0 |}.

Definition fails_at (n : nat) : Script :=
  {| err := fun h => Nat.eqb (length h) n;
     byte_in := fun _ => 0;
     halfword_in := fun _ => 0;
     bytes_in := fun _ _ => 0 |}.

(** The start of a run: nothing called yet. *)
Definition start (r : Z -> Z) : world (list event) := World [] r.

End Recorder.

Import Recorder.

(** ** What the driver is expected to put on the bus *)

(** [i], [i + 1], ..., [len] numbers in all. *)
Fixpoint Zseq (i : Z) (len : nat) : list Z :=
  match len with
  | O => []
  | S len' => i :: Zseq (i + 1) len'
  end.

Definition Zrange (n : Z) : list Z := Zseq 0 (Z.to_nat n).

Module Transaction.

Import EepromM24C.

Definition write_byte (address value : Z) : list event :=
  [StartPolling_ev (HandleDeviceSelectCode address) TX false;
   WriteByte_ev (uint8 address);
   WriteByte_ev value;
   Stop_ev].

Definition write_halfword (address value : Z) : list event :=
  [StartPolling_ev (HandleDeviceSelectCode address) TX false;
   WriteByte_ev (uint8 address);
   WriteByte_ev (uint8 value);
   WriteByte_ev (uint8 (Z.shiftr value 8));
   Stop_ev].

Definition write_page (r : Z -> Z) (data address data_size : Z) : list event :=
  [StartPolling_ev (HandleDeviceSelectCode address) TX false;
   WriteByte_ev (uint8 address)]
  ++ map (fun i => WriteByte_ev (r (data + i))) (Zrange data_size)
  ++ [Stop_ev].

Definition read_byte (address : Z) : list event :=
  [StartPolling_ev (HandleDeviceSelectCode address) TX false;
   WriteByte_ev (uint8 address);
   StartPolling_ev (HandleDeviceSelectCode address) RX false;
   ReadByte_ev].

Definition read_halfword (address : Z) : list event :=
  [StartPolling_ev (HandleDeviceSelectCode address) TX true;
   WriteByte_ev (uint8 address);
   StartPolling_ev (HandleDeviceSelectCode address) RX false;
   ReadHalfWord_ev].

Definition read_block (data address data_size : Z) : list event :=
  [StartPolling_ev (HandleDeviceSelectCode address) TX false;
   WriteByte_ev (uint8 address);
   StartPolling_ev (HandleDeviceSelectCode address) RX false;
   ReadMultipleBytes_ev data data_size].

Definition erase_page (model : EepromM24CModel) (address : Z) : list event :=
  [StartPolling_ev (HandleDeviceSelectCode address) TX false;
   WriteByte_ev (uint8 address)]
  ++ map (fun _ => WriteByte_ev 255) (Zrange (PAGE_SIZE model))
  ++ [Stop_ev].

End Transaction.

(** The transaction of an entry (data pointer, address, size) of a page
    schedule. *)
Definition page_transaction (r : Z -> Z) (p : Z * Z * Z) : list event :=
  Transaction.write_page r (fst (fst p)) (snd (fst p)) (snd p).

(** ** The retry policy, as the specification words it

    Before a transaction the error state is checked and the transport is
    initialised again when it is set; after the transaction the error state
    is checked again and, when set, everything is done once more.  The
    result tells whether the operation returned within [budget] attempts,
    and the calls made. *)

Definition check_init (sc : Script) (h : list event) : list event :=
  IsStateError_ev (err sc h) :: (if err sc h then [Init_ev] else []).

Fixpoint retry_policy (sc : Script) (tx : list event) (budget : nat)
    (h : list event) : bool * list event :=
  match budget with
  | O => (false, h)
  | S budget' =>
      let h' := h ++ check_init sc h ++ tx in
      if err sc h'
      then retry_policy sc tx budget' (h' ++ [IsStateError_ev true])
      else (true, h' ++ [IsStateError_ev false])
  end.

(** Several transactions one after the other, each under the policy. *)
Fixpoint retry_policy_seq (sc : Script) (txs : list (list event))
    (budget : nat) (h : list event) : bool * list event :=
  match txs with
  | [] => (true, h)
  | tx :: txs' =>
      match retry_policy sc tx budget h with
      | (true, h') => retry_policy_seq sc txs' budget h'
      | (false, h') => (false, h')
      end
  end.

(** ** Segmentation, as the specification words it *)

Section Segmentation.

Variable model : EepromM24CModel.
Context {Bus : Type} {transport : I2C_M24C Bus}.

(** The page writes of a block write: (data pointer, address, size). *)
Definition page_schedule (data address data_size : Z) : list (Z * Z * Z) :=
  let full_pages := data_size / PAGE_SIZE model in
  map (fun k => (data + k * PAGE_SIZE model,
                 uint16 (address + k * PAGE_SIZE model),
                 PAGE_SIZE model))
      (Zrange full_pages)
  ++ [(data + full_pages * PAGE_SIZE model,
       uint16 (address + full_pages * PAGE_SIZE model),
       data_size mod PAGE_SIZE model)].

Fixpoint write_pages (fuel : nat) (pages : list (Z * Z * Z)) : M Bus unit :=
  match pages with
  | [] => ret tt
  | (data, address, data_size) :: pages' =>
      EepromM24C.WritePage fuel data address data_size ;;
      write_pages fuel pages'
  end.

(** The page offsets of the device. *)
Definition erase_offsets : list Z :=
  map (fun k => k * PAGE_SIZE model)
      (Zrange (MEMORY_SIZE model / PAGE_SIZE model)).

Fixpoint erase_pages (fuel : nat) (offsets : list Z) : M Bus unit :=
  match offsets with
  | [] => ret tt
  | address :: offsets' =>
      EepromM24C.ErasePage model fuel address ;;
      erase_pages fuel offsets'
  end.

End Segmentation.

(** ** Observations on a recorded run *)

(** The last call of a loop iteration: the one that ends the transaction. *)
Definition closes (e : event) : bool :=
  match e with
  | Stop_ev | ReadByte_ev | ReadHalfWord_ev | ReadMultipleBytes_ev _ _ => true
  | _ => false
  end.

(** The answers to the error checks made right after a transaction. *)
Fixpoint end_answers (l : list event) : list bool :=
  match l with
  | [] => []
  | e :: l' =>
      match l' with
      | IsStateError_ev b :: _ =>
          if closes e then b :: end_answers l' else end_answers l'
      | _ => end_answers l'
      end
  end.

(** [k] failed attempts, then one that passes. *)
Definition pass_after (k : nat) : list bool := repeat true k ++ [false].

(** What the end-of-transaction answers of a run look like when the caller
    goes through [loops] retry loops one after the other, each returning at
    the first answer [false] and each allowed [fuel] attempts. *)
Definition loops_outcome (fuel loops : nat) (returned : bool)
    (answers : list bool) : Prop :=
  if returned
  then exists ks, length ks = loops
                  /\ Forall (fun k => (k < fuel)%nat) ks
                  /\ answers = concat (map pass_after ks)
  else exists ks, (length ks < loops)%nat
                  /\ Forall (fun k => (k < fuel)%nat) ks
                  /\ answers = concat (map pass_after ks) ++ repeat true fuel.

(** The number of data bytes of each write transaction: the bytes between
    the start and the stop, the address byte apart. *)
Fixpoint payload_sizes (cur : option Z) (l : list event) : list Z :=
  match l with
  | [] => []
  | StartPolling_ev _ TX _ :: l' => payload_sizes (Some (-1)) l'
  | WriteByte_ev _ :: l' =>
      payload_sizes (option_map (fun n => n + 1) cur) l'
  | Stop_ev :: l' =>
      match cur with
      | Some n => n :: payload_sizes None l'
      | None => payload_sizes None l'
      end
  | _ :: l' => payload_sizes cur l'
  end.

(** The calls a run made and whether it returned. *)
Definition trace {A : Type} (res : outcome A * world (list event))
  : bool * list event :=
  (is_returned (fst res), i2c (snd res)).

(** A run, from a fixed start, of an operation that is one transaction
    under the retry policy. *)
Definition follows_retry_policy {A : Type}
    (run : Script -> nat -> outcome A * world (list event)) : Prop :=
  exists tx, forall sc fuel, trace (run sc fuel) = retry_policy sc tx fuel [].

(** A transaction in which only the last call ends the attempt. *)
Definition closing (tx : list event) : Prop :=
  exists pre e, tx = pre ++ [e] /\ closes e = true
                /\ Forall (fun x => closes x = false) pre.

(** The calls a run adds to the history all satisfy [P]. *)
Definition adds {A : Type} (P : event -> Prop) (w : world (list event))
    (res : outcome A * world (list event)) : Prop :=
  exists l, i2c (snd res) = i2c w ++ l /\ Forall P l.

(** A run is [loops] retry loops one after the other, each left at the
    first passing check. *)
Definition answers_of {A : Type} (fuel loops : nat) (w : world (list event))
    (res : outcome A * world (list event)) : Prop :=
  exists l, i2c (snd res) = i2c w ++ l
            /\ loops_outcome fuel loops (is_returned (fst res)) (end_answers l).

(** Every start condition is addressed with the select code of [address]. *)
Definition selects (address : Z) (e : event) : Prop :=
  match e with
  | StartPolling_ev device_id _ _ =>
      device_id = EepromM24C.HandleDeviceSelectCode address
  | _ => True
  end.

(** The flag [set_pos_bit] of a start condition is left at [false]. *)
Definition pos_bit_clear (e : event) : Prop :=
  match e with
  | StartPolling_ev _ _ set_pos_bit => set_pos_bit = false
  | _ => True
  end.

(** The flag [set_pos_bit] is set on the transmit phase and on it only. *)
Definition pos_bit_on_tx_only (e : event) : Prop :=
  match e with
  | StartPolling_ev _ TX set_pos_bit => set_pos_bit = true
  | StartPolling_ev _ RX set_pos_bit => set_pos_bit = false
  | _ => True
  end.

Definition not_stop (e : event) : Prop := e <> Stop_ev.

(** ** The bus protocol of a recorded run *)

(** A write transaction: the start condition, the address byte, the data
    bytes and the stop condition. *)
Definition write_transaction (device_code address_byte : Z) (bytes : list Z)
  : list event :=
  [StartPolling_ev device_code TX false; WriteByte_ev address_byte]
  ++ map WriteByte_ev bytes ++ [Stop_ev].

(** Where a log stands with respect to the write transactions: outside of
    one, after the start condition (the next byte is the address byte), or
    among the data bytes. *)
Inductive phase : Type :=
| Outside
| Address
| Data.

(** The data bytes the write transactions of a log carry, in order. *)
Fixpoint data_bytes (ph : phase) (l : list event) : list Z :=
  match l with
  | [] => []
  | StartPolling_ev _ TX _ :: l' => data_bytes Address l'
  | WriteByte_ev b :: l' =>
      match ph with
      | Outside => data_bytes Outside l'
      | Address => data_bytes Data l'
      | Data => b :: data_bytes Data l'
      end
  | Stop_ev :: l' => data_bytes Outside l'
  | _ :: l' => data_bytes ph l'
  end.

(** The states of the transport as the calls of the driver drive it: idle;
    error state just checked before a transaction; initialised again;
    started in transmit mode; transmitting, the address byte sent;
    restarted in receive mode; transaction ended, error state not yet
    checked. *)
Inductive protocol : Type :=
| Idle
| Checked (error : bool)
| Initialised
| Started
| Transmitting
| Receiving
| Closed.

(** The calls allowed in each state; [None] is a call out of order. *)
Definition protocol_step (s : protocol) (e : event) : option protocol :=
  match s, e with
  | Idle, IsStateError_ev b => Some (Checked b)
  | Checked true, Init_ev => Some Initialised
  | Checked false, StartPolling_ev _ TX _ => Some Started
  | Initialised, StartPolling_ev _ TX _ => Some Started
  | Started, WriteByte_ev _ => Some Transmitting
  | Transmitting, WriteByte_ev _ => Some Transmitting
  | Transmitting, Stop_ev => Some Closed
  | Transmitting, StartPolling_ev _ RX _ => Some Receiving
  | Receiving, ReadByte_ev => Some Closed
  | Receiving, ReadHalfWord_ev => Some Closed
  | Receiving, ReadMultipleBytes_ev _ _ => Some Closed
  | Closed, IsStateError_ev _ => Some Idle
  | _, _ => None
  end.

Fixpoint protocol_run (s : protocol) (l : list event) : option protocol :=
  match l with
  | [] => Some s
  | e :: l' =>
      match protocol_step s e with
      | Some s' => protocol_run s' l'
      | None => None
      end
  end.

(** A transaction that takes the transport from a passed check, or from an
    initialisation, to the end of the transaction. *)
Definition conforming (tx : list event) : Prop :=
  protocol_run (Checked false) tx = Some Closed
  /\ protocol_run Initialised tx = Some Closed.

(** A transport that reports no error after a transaction. *)
Definition healthy (sc : Script) : Prop :=
  forall h e, closes e = true -> err sc (h ++ [e]) = false.

(** The calls a run adds to the history are in protocol order and leave the
    transport idle. *)
Definition in_protocol {A : Type} (w : world (list event))
    (res : outcome A * world (list event)) : Prop :=
  exists l, i2c (snd res) = i2c w ++ l /\ protocol_run Idle l = Some Idle.

(** A log in which each transaction of a list is made once, in order: a
    check before it, an initialisation when the check reports an error,
    the transaction, and a check that passes. *)
Inductive one_attempt_each : list (list event) -> list event -> Prop :=
| no_transaction : one_attempt_each [] []
| first_transaction (tx : list event) (txs : list (list event)) (b : bool)
    (l : list event) :
    one_attempt_each txs l ->
    one_attempt_each (tx :: txs)
      (IsStateError_ev b :: (if b then [Init_ev] else [])
       ++ tx ++ IsStateError_ev false :: l).


(** A computation that leaves the memory as it found it, whether it
    returns or not. *)
Definition keeps_ram {Bus A : Type} (m : M Bus A) : Prop :=
  forall w, ram (snd (m w)) = ram w.

(** Running the calls of a loop body on the recording transport. *)
Ltac run_calls :=
  unfold bind, ret, EepromM24C.i2c_IsStateError, EepromM24C.i2c_Init,
    EepromM24C.i2c_StartPolling, EepromM24C.i2c_WriteByte, EepromM24C.i2c_Stop,
    EepromM24C.i2c_ReadByte, EepromM24C.i2c_ReadHalfWord,
    EepromM24C.i2c_ReadMultipleBytes, EepromM24C.deref, check_init;
  cbn [bus IsStateError Init StartPolling WriteByte Stop ReadByte ReadHalfWord
       ReadMultipleBytes i2c ram fst snd].

Ltac body_of_policy w :=
  run_calls; destruct (err _ (i2c w));
  cbn [i2c ram]; rewrite <- ?app_assoc; cbn [app];
  do 2 eexists; (split; [reflexivity | auto]).

(** * Properties *)

(** ** Integers and bits *)

Lemma uint8_range (z : Z) : 0 <= uint8 z < 256.
Proof. unfold uint8. apply Z.mod_pos_bound. lia. Qed.

Lemma uint16_range (z : Z) : 0 <= uint16 z < 65536.
Proof. unfold uint16. apply Z.mod_pos_bound. lia. Qed.

Lemma uint8_small (z : Z) : 0 <= z < 256 -> uint8 z = z.
Proof. intros H. unfold uint8. apply Z.mod_small. exact H. Qed.

Lemma uint16_small (z : Z) : 0 <= z < 65536 -> uint16 z = z.
Proof. intros H. unfold uint16. apply Z.mod_small. exact H. Qed.

(** Only the low four bits of [x] matter under the chip-enable mask. *)
Lemma land_mask_low (x : Z) : Z.land x 14 = Z.land (x mod 16) 14.
Proof.
  change 16 with (2 ^ 4).
  rewrite <- Z.land_ones by lia.
  rewrite <- Z.land_assoc.
  reflexivity.
Qed.

Lemma land_mask_cases (x : Z) :
  In (Z.land x 14) [0; 2; 4; 6; 8; 10; 12; 14].
Proof.
  rewrite land_mask_low.
  assert (H : 0 <= x mod 16 < 16) by (apply Z.mod_pos_bound; lia).
  assert (C : x mod 16 = 0 \/ x mod 16 = 1 \/ x mod 16 = 2 \/ x mod 16 = 3
              \/ x mod 16 = 4 \/ x mod 16 = 5 \/ x mod 16 = 6 \/ x mod 16 = 7
              \/ x mod 16 = 8 \/ x mod 16 = 9 \/ x mod 16 = 10
              \/ x mod 16 = 11 \/ x mod 16 = 12 \/ x mod 16 = 13
              \/ x mod 16 = 14 \/ x mod 16 = 15) by lia.
  repeat (destruct C as [C | C]; [rewrite C; simpl; tauto |]).
  rewrite C; simpl; tauto.
Qed.

Lemma select_code_unfold (address : Z) :
  EepromM24C.HandleDeviceSelectCode address
  = Z.lor 160 (Z.land (Z.shiftr address 7) 14).
Proof.
  unfold EepromM24C.HandleDeviceSelectCode, EepromM24C.DEVICE_ID,
    EepromM24C.CHIP_ENABLE_ADRESS_SHIFT, EepromM24C.CHIP_ENABLE_ADRESS_MASK.
  pose proof (land_mask_cases (Z.shiftr address 7)) as H.
  simpl in H.
  repeat (destruct H as [H | H]; [rewrite <- H; reflexivity |]).
  contradiction.
Qed.

Lemma shiftr7_low4 (a : Z) : (Z.shiftr a 7) mod 16 = (a mod 2048) / 128.
Proof.
  rewrite Z.shiftr_div_pow2 by lia.
  change (2 ^ 7) with 128.
  Z.div_mod_to_equations. lia.
Qed.

Lemma select_code_mod_2048 (a : Z) :
  EepromM24C.HandleDeviceSelectCode a
  = EepromM24C.HandleDeviceSelectCode (a mod 2048).
Proof.
  rewrite !select_code_unfold.
  rewrite (land_mask_low (Z.shiftr a 7)), (land_mask_low (Z.shiftr (a mod 2048) 7)).
  rewrite !shiftr7_low4.
  rewrite Z.mod_mod by lia.
  reflexivity.
Qed.

Lemma uint8_mod_2048 (a : Z) : uint8 a = uint8 (a mod 2048).
Proof. unfold uint8. Z.div_mod_to_equations. lia. Qed.

Lemma uint16_step_mod_2048 (a b step : Z) :
  a mod 2048 = b mod 2048 ->
  uint16 (a + step) mod 2048 = uint16 (b + step) mod 2048.
Proof. unfold uint16. intros H. Z.div_mod_to_equations. lia. Qed.

Lemma little_endian_halves (value : Z) :
  uint8 value + 256 * uint8 (Z.shiftr value 8) = uint16 value.
Proof.
  rewrite Z.shiftr_div_pow2 by lia.
  change (2 ^ 8) with 256.
  unfold uint8, uint16. Z.div_mod_to_equations. lia.
Qed.

(** ** Loops on the recording transport *)

Lemma Zseq_length (len : nat) (i : Z) : length (Zseq i len) = len.
Proof.
  revert i. induction len as [| len IH]; intros i; simpl.
  - reflexivity.
  - rewrite IH. reflexivity.
Qed.

Lemma world_eta {Bus : Type} (w : world Bus) : World (i2c w) (ram w) = w.
Proof. destruct w. reflexivity. Qed.

(** A [uint8_t] counter running up to [n]: the body is run once for each
    of [i], [i + 1], ..., [n - 1], and the loop is left. *)
Lemma for_loop_log (f : (Z -> Z) -> Z -> event)
    (body : Z -> M (list event) unit) (n : Z) :
  (forall i w, body i w = (Returned tt, World (i2c w ++ [f (ram w) i]) (ram w))) ->
  forall (k fuel : nat) (i : Z) (w : world (list event)),
    (k < fuel)%nat -> 0 <= i -> i + Z.of_nat k = n -> n < 256 ->
    for_loop fuel i (fun i => i <? n) (fun i => uint8 (i + 1)) body w
    = (Returned tt, World (i2c w ++ map (f (ram w)) (Zseq i k)) (ram w)).
Proof.
  intros Hbody.
  induction k as [| k IH]; intros fuel i w Hfuel Hi Hn Hsmall;
    (destruct fuel as [| fuel]; [lia |]); simpl.
  - replace (i <? n) with false by (symmetry; apply Z.ltb_ge; lia).
    unfold ret. rewrite app_nil_r, world_eta. reflexivity.
  - replace (i <? n) with true by (symmetry; apply Z.ltb_lt; lia).
    unfold bind. rewrite Hbody.
    rewrite uint8_small by lia.
    rewrite IH by (simpl; lia).
    simpl. rewrite <- app_assoc. reflexivity.
Qed.

Section RetryLoop.

Variable sc : Script.

(** One iteration of a retry loop. *)
Lemma do_while_step {A : Type} (body : M (list event) A) (fuel : nat)
    (w w1 : world (list event)) (a : A) :
  body w = (Returned a, w1) ->
  do_while (S fuel) body (EepromM24C.i2c_IsStateError (transport := bus sc)) w
  = if err sc (i2c w1)
    then do_while fuel body (EepromM24C.i2c_IsStateError (transport := bus sc))
           (World (i2c w1 ++ [IsStateError_ev true]) (ram w1))
    else (Returned a, World (i2c w1 ++ [IsStateError_ev false]) (ram w1)).
Proof.
  intros E. simpl. unfold bind at 1. rewrite E.
  unfold bind at 1. unfold EepromM24C.i2c_IsStateError at 1. simpl.
  destruct (err sc (i2c w1)); reflexivity.
Qed.

(** A loop whose body checks, initialises when needed and then makes the
    calls [tx] follows the retry policy.  [Inv] is what the body keeps
    true of the memory. *)
Lemma do_while_policy {A : Type} (body : M (list event) A)
    (tx : list event) (Inv : (Z -> Z) -> Prop) :
  (forall w, Inv (ram w) ->
     exists a r,
       body w = (Returned a, World (i2c w ++ check_init sc (i2c w) ++ tx) r)
       /\ Inv r) ->
  forall (fuel : nat) (w : world (list event)),
    Inv (ram w) ->
    trace (do_while fuel body (EepromM24C.i2c_IsStateError (transport := bus sc)) w)
    = retry_policy sc tx fuel (i2c w)
    /\ Inv (ram (snd (do_while fuel body
                        (EepromM24C.i2c_IsStateError (transport := bus sc)) w))).
Proof.
  intros Hbody.
  induction fuel as [| fuel IH]; intros w Hw.
  - split; [reflexivity | exact Hw].
  - destruct (Hbody w Hw) as (a & r & E & Hr).
    rewrite (do_while_step body fuel w _ a E).
    cbn [retry_policy i2c ram].
    destruct (err sc (i2c w ++ check_init sc (i2c w) ++ tx)) eqn:Eerr.
    + apply (IH (World _ r)). exact Hr.
    + split; [reflexivity | exact Hr].
Qed.

(** A loop returns the value of an iteration whose closing check
    answered [false]. *)
Lemma do_while_last {A : Type} (body : M (list event) A) :
  forall (fuel : nat) (w w' : world (list event)) (a : A),
    do_while fuel body (EepromM24C.i2c_IsStateError (transport := bus sc)) w
    = (Returned a, w') ->
    exists w0 w1,
      body w0 = (Returned a, w1)
      /\ err sc (i2c w1) = false
      /\ w' = World (i2c w1 ++ [IsStateError_ev false]) (ram w1).
Proof.
  induction fuel as [| fuel IH]; intros w w' a.
  - discriminate.
  - destruct (body w) as [[a0 |] w1] eqn:E.
    + rewrite (do_while_step body fuel w w1 a0 E).
      destruct (err sc (i2c w1)) eqn:Eerr.
      * apply IH.
      * intros H. inversion H; subst. exists w, w1. auto.
    + simpl. unfold bind at 1. rewrite E. discriminate.
Qed.

End RetryLoop.

(** ** The single-transaction operations on the recording transport *)

Section Operations.

Variable sc : Script.

Lemma WriteByte_trace (fuel : nat) (address value : Z) (w : world (list event)) :
  trace (EepromM24C.WriteByte (transport := bus sc) fuel address value w)
  = retry_policy sc (Transaction.write_byte address value) fuel (i2c w)
  /\ ram (snd (EepromM24C.WriteByte (transport := bus sc) fuel address value w))
     = ram w.
Proof.
  unfold EepromM24C.WriteByte.
  apply (do_while_policy sc _ _ (fun r => r = ram w)); [| reflexivity].
  intros w0 H0. unfold Transaction.write_byte.
  body_of_policy w0.
Qed.

Lemma WriteHalfWord_trace (fuel : nat) (address value : Z)
    (w : world (list event)) :
  trace (EepromM24C.WriteHalfWord (transport := bus sc) fuel address value w)
  = retry_policy sc (Transaction.write_halfword address value) fuel (i2c w)
  /\ ram (snd (EepromM24C.WriteHalfWord (transport := bus sc) fuel address value w))
     = ram w.
Proof.
  unfold EepromM24C.WriteHalfWord.
  apply (do_while_policy sc _ _ (fun r => r = ram w)); [| reflexivity].
  intros w0 H0. unfold Transaction.write_halfword.
  body_of_policy w0.
Qed.

Lemma ReadByte_trace (fuel : nat) (address : Z) (w : world (list event)) :
  trace (EepromM24C.ReadByte (transport := bus sc) fuel address w)
  = retry_policy sc (Transaction.read_byte address) fuel (i2c w)
  /\ ram (snd (EepromM24C.ReadByte (transport := bus sc) fuel address w)) = ram w.
Proof.
  unfold EepromM24C.ReadByte.
  apply (do_while_policy sc _ _ (fun r => r = ram w)); [| reflexivity].
  intros w0 H0. unfold Transaction.read_byte.
  body_of_policy w0.
Qed.

Lemma ReadHalfWord_trace (fuel : nat) (address : Z) (w : world (list event)) :
  trace (EepromM24C.ReadHalfWord (transport := bus sc) fuel address w)
  = retry_policy sc (Transaction.read_halfword address) fuel (i2c w)
  /\ ram (snd (EepromM24C.ReadHalfWord (transport := bus sc) fuel address w))
     = ram w.
Proof.
  unfold EepromM24C.ReadHalfWord.
  apply (do_while_policy sc _ _ (fun r => r = ram w)); [| reflexivity].
  intros w0 H0. unfold Transaction.read_halfword.
  body_of_policy w0.
Qed.

Lemma ReadBlock_trace (fuel : nat) (data address data_size : Z)
    (w : world (list event)) :
  trace (EepromM24C.ReadBlock (transport := bus sc) fuel data address data_size w)
  = retry_policy sc (Transaction.read_block data address data_size) fuel (i2c w).
Proof.
  unfold EepromM24C.ReadBlock.
  apply (do_while_policy sc _ _ (fun _ => True)); [| exact I].
  intros w0 H0. unfold Transaction.read_block.
  body_of_policy w0.
Qed.

Lemma WritePage_trace (fuel : nat) (data address data_size : Z)
    (w : world (list event)) :
  0 <= data_size < 256 ->
  trace (EepromM24C.WritePage (transport := bus sc) fuel data address data_size w)
  = retry_policy sc (Transaction.write_page (ram w) data address data_size)
      fuel (i2c w)
  /\ ram (snd (EepromM24C.WritePage (transport := bus sc) fuel data address
                 data_size w))
     = ram w.
Proof.
  intros Hsize.
  unfold EepromM24C.WritePage.
  apply (do_while_policy sc _ _ (fun r => r = ram w)); [| reflexivity].
  intros w0 H0. unfold Transaction.write_page, Zrange.
  run_calls.
  destruct (err sc (i2c w0));
    (rewrite (for_loop_log (fun r i => WriteByte_ev (r (data + i))) _ data_size)
       with (k := Z.to_nat data_size); try lia; [| intros; reflexivity]);
    cbn [i2c ram]; rewrite <- ?app_assoc; cbn [app]; rewrite H0;
    do 2 eexists; (split; [reflexivity | auto]).
Qed.

Lemma ErasePage_trace (model : EepromM24CModel) (fuel : nat) (address : Z)
    (w : world (list event)) :
  trace (EepromM24C.ErasePage (transport := bus sc) model fuel address w)
  = retry_policy sc (Transaction.erase_page model address) fuel (i2c w)
  /\ ram (snd (EepromM24C.ErasePage (transport := bus sc) model fuel address w))
     = ram w.
Proof.
  unfold EepromM24C.ErasePage.
  apply (do_while_policy sc _ _ (fun r => r = ram w)); [| reflexivity].
  intros w0 H0. unfold Transaction.erase_page, Zrange.
  run_calls.
  destruct (err sc (i2c w0));
    (rewrite (for_loop_log (fun _ _ => WriteByte_ev 255) _ (PAGE_SIZE model))
       with (k := Z.to_nat (PAGE_SIZE model));
     try (destruct model; simpl; lia); [| intros; reflexivity]);
    cbn [i2c ram]; rewrite <- ?app_assoc; cbn [app];
    do 2 eexists; (split; [reflexivity | auto]).
Qed.

End Operations.

(** ** Block write and chip erase are sequences of page operations *)

Section Sequences.

Context {Bus : Type} {transport : I2C_M24C Bus}.

Lemma bind_assoc {A B C : Type} (m : M Bus A) (f : A -> M Bus B)
    (g : B -> M Bus C) (w : world Bus) :
  bind (bind m f) g w = bind m (fun a => bind (f a) g) w.
Proof.
  unfold bind. destruct (m w) as [[a |] w1]; reflexivity.
Qed.

Lemma bind_ext {A B : Type} (m : M Bus A) (f g : A -> M Bus B) (w : world Bus) :
  (forall a w', f a w' = g a w') -> bind m f w = bind m g w.
Proof.
  intros H. unfold bind. destruct (m w) as [[a |] w1]; [apply H | reflexivity].
Qed.

Lemma bind_cong_l {A B : Type} (m m' : M Bus A) (f : A -> M Bus B)
    (w : world Bus) :
  m w = m' w -> bind m f w = bind m' f w.
Proof. intros H. unfold bind. rewrite H. reflexivity. Qed.

Lemma bind_ret_tt (m : M Bus unit) (w : world Bus) :
  bind m (fun _ => ret tt) w = m w.
Proof.
  unfold bind, ret. destruct (m w) as [[[] |] w1]; reflexivity.
Qed.

Lemma write_pages_app (fuel : nat) (ps qs : list (Z * Z * Z)) (w : world Bus) :
  write_pages fuel (ps ++ qs) w
  = (write_pages fuel ps ;; write_pages fuel qs) w.
Proof.
  revert w. induction ps as [| [[d a] n] ps IH]; intros w; simpl.
  - reflexivity.
  - rewrite bind_assoc. apply bind_ext. intros _ w'. apply IH.
Qed.

Lemma Zseq_map_succ {A : Type} (f : Z -> A) (len : nat) (i : Z) :
  map f (Zseq (i + 1) len) = map (fun k => f (k + 1)) (Zseq i len).
Proof.
  revert i. induction len as [| len IH]; intros i; simpl.
  - reflexivity.
  - rewrite IH. reflexivity.
Qed.

Lemma uint16_add_idemp (a b : Z) : uint16 (uint16 a + b) = uint16 (a + b).
Proof. unfold uint16. apply Z.add_mod_idemp_l. lia. Qed.

(** The loop of [WriteBlock] writes one full page per round, each one
    [PAGE_SIZE] bytes after the one before, and hands on the advanced
    pointer and address. *)
Lemma WriteBlock_loop_pages (model : EepromM24CModel) (fuel : nat) {A : Type}
    (k : Z * Z -> M Bus A) :
  forall (n : nat) (data address : Z) (w : world Bus),
    0 <= address < 65536 ->
    bind (EepromM24C.WriteBlock_loop model fuel n data address) k w
    = bind (write_pages fuel
              (map (fun j => (data + j * PAGE_SIZE model,
                              uint16 (address + j * PAGE_SIZE model),
                              PAGE_SIZE model))
                   (Zseq 0 n)))
           (fun _ => k (data + Z.of_nat n * PAGE_SIZE model,
                        uint16 (address + Z.of_nat n * PAGE_SIZE model)))
        w.
Proof.
  induction n as [| n IH]; intros data address w Ha.
  - simpl. unfold bind, ret.
    rewrite !Z.add_0_r, uint16_small by exact Ha. reflexivity.
  - cbn [EepromM24C.WriteBlock_loop Zseq map write_pages].
    rewrite !bind_assoc.
    rewrite Z.mul_0_l, !Z.add_0_r, (uint16_small address) by exact Ha.
    apply bind_ext. intros _ w1.
    rewrite IH by apply uint16_range.
    change (0 + 1) with 1.
    rewrite (Zseq_map_succ _ n 0).
    replace (map (fun j => (data + PAGE_SIZE model + j * PAGE_SIZE model,
                            uint16 (uint16 (address + PAGE_SIZE model)
                                    + j * PAGE_SIZE model),
                            PAGE_SIZE model)) (Zseq 0 n))
      with (map (fun j => (data + (j + 1) * PAGE_SIZE model,
                           uint16 (address + (j + 1) * PAGE_SIZE model),
                           PAGE_SIZE model)) (Zseq 0 n)).
    + apply bind_ext. intros _ w2.
      rewrite uint16_add_idemp.
      replace (Z.of_nat (S n)) with (Z.of_nat n + 1) by lia.
      replace (data + PAGE_SIZE model + Z.of_nat n * PAGE_SIZE model)
        with (data + (Z.of_nat n + 1) * PAGE_SIZE model) by lia.
      replace (address + PAGE_SIZE model + Z.of_nat n * PAGE_SIZE model)
        with (address + (Z.of_nat n + 1) * PAGE_SIZE model) by lia.
      reflexivity.
    + apply map_ext. intros j.
      rewrite uint16_add_idemp.
      replace (data + PAGE_SIZE model + j * PAGE_SIZE model)
        with (data + (j + 1) * PAGE_SIZE model) by lia.
      replace (address + PAGE_SIZE model + j * PAGE_SIZE model)
        with (address + (j + 1) * PAGE_SIZE model) by lia.
      reflexivity.
Qed.

(** [WriteBlock] is the page writes of the schedule, in order. *)
Lemma WriteBlock_pages (model : EepromM24CModel) (fuel : nat)
    (data address data_size : Z) (w : world Bus) :
  0 <= address < 65536 ->
  0 <= data_size < 65536 ->
  EepromM24C.WriteBlock model fuel data address data_size w
  = write_pages fuel (page_schedule model data address data_size) w.
Proof.
  intros Ha Hs.
  assert (Hp : PAGE_SIZE model = 16) by (destruct model; reflexivity).
  unfold EepromM24C.WriteBlock, page_schedule, Zrange.
  rewrite WriteBlock_loop_pages by exact Ha.
  rewrite write_pages_app.
  rewrite (uint16_small (data_size / PAGE_SIZE model))
    by (rewrite Hp; Z.div_mod_to_equations; lia).
  rewrite (uint8_small (data_size mod PAGE_SIZE model))
    by (rewrite Hp; Z.div_mod_to_equations; lia).
  rewrite Z2Nat.id by (rewrite Hp; Z.div_mod_to_equations; lia).
  apply bind_ext. intros _ w1.
  cbn [write_pages fst snd]. rewrite bind_ret_tt. reflexivity.
Qed.

(** [ChipErase] is a page erase at each page offset, in order. *)
Lemma ChipErase_pages (model : EepromM24CModel) (fuel : nat) (w : world Bus) :
  EepromM24C.ChipErase model fuel w
  = erase_pages model fuel (erase_offsets model) w.
Proof.
  destruct model. vm_compute. reflexivity.
Qed.

End Sequences.

(** ** Sequences of page operations on the recording transport *)

Section SequenceTraces.

Variable sc : Script.

Lemma write_pages_trace (fuel : nat) (pages : list (Z * Z * Z)) :
  Forall (fun p => 0 <= snd p < 256) pages ->
  forall w : world (list event),
    trace (write_pages (transport := bus sc) fuel pages w)
    = retry_policy_seq sc (map (page_transaction (ram w)) pages) fuel (i2c w)
    /\ ram (snd (write_pages (transport := bus sc) fuel pages w)) = ram w.
Proof.
  induction 1 as [| [[d a] n] pages Hn Hpages IH]; intros w.
  - split; reflexivity.
  - cbn [write_pages map retry_policy_seq].
    destruct (WritePage_trace sc fuel d a n w Hn) as [Ht Hr].
    unfold page_transaction at 1. cbn [fst snd]. rewrite <- Ht.
    unfold trace, bind in *.
    destruct (EepromM24C.WritePage fuel d a n w) as [[[] |] w1];
      cbn [fst snd is_returned] in *.
    + rewrite <- Hr. apply IH.
    + split; [reflexivity | exact Hr].
Qed.

Lemma erase_pages_trace (model : EepromM24CModel) (fuel : nat)
    (offsets : list Z) :
  forall w : world (list event),
    trace (erase_pages (transport := bus sc) model fuel offsets w)
    = retry_policy_seq sc (map (Transaction.erase_page model) offsets) fuel
        (i2c w)
    /\ ram (snd (erase_pages (transport := bus sc) model fuel offsets w)) = ram w.
Proof.
  induction offsets as [| a offsets IH]; intros w.
  - split; reflexivity.
  - cbn [erase_pages map retry_policy_seq].
    destruct (ErasePage_trace sc model fuel a w) as [Ht Hr].
    rewrite <- Ht.
    unfold trace, bind in *.
    destruct (EepromM24C.ErasePage model fuel a w) as [[[] |] w1];
      cbn [fst snd is_returned] in *.
    + rewrite <- Hr. apply IH.
    + split; [reflexivity | exact Hr].
Qed.

Lemma page_schedule_sizes (model : EepromM24CModel) (data address data_size : Z) :
  Forall (fun p => 0 <= snd p < 256) (page_schedule model data address data_size).
Proof.
  assert (Hp : PAGE_SIZE model = 16) by (destruct model; reflexivity).
  unfold page_schedule. apply Forall_app. split.
  - apply Forall_forall. intros p Hin.
    apply in_map_iff in Hin. destruct Hin as (k & <- & _).
    cbn [snd]. lia.
  - constructor; [| constructor].
    cbn [snd]. rewrite Hp. Z.div_mod_to_equations. lia.
Qed.

Lemma WriteBlock_trace (model : EepromM24CModel) (fuel : nat)
    (data address data_size : Z) (w : world (list event)) :
  0 <= address < 65536 ->
  0 <= data_size < 65536 ->
  trace (EepromM24C.WriteBlock (transport := bus sc) model fuel data address
           data_size w)
  = retry_policy_seq sc
      (map (page_transaction (ram w))
           (page_schedule model data address data_size))
      fuel (i2c w).
Proof.
  intros Ha Hs.
  rewrite WriteBlock_pages by assumption.
  apply write_pages_trace, page_schedule_sizes.
Qed.

Lemma ChipErase_trace (model : EepromM24CModel) (fuel : nat)
    (w : world (list event)) :
  trace (EepromM24C.ChipErase (transport := bus sc) model fuel w)
  = retry_policy_seq sc
      (map (Transaction.erase_page model) (erase_offsets model)) fuel (i2c w).
Proof.
  rewrite ChipErase_pages.
  apply erase_pages_trace.
Qed.

End SequenceTraces.

(** ** What the retry policy puts on the bus *)

Section PolicyFacts.

Variable sc : Script.

(** Every call made under the policy is a check, an initialisation or a
    call of the transaction. *)
Lemma retry_policy_calls (P : event -> Prop) (tx : list event) :
  (forall b, P (IsStateError_ev b)) -> P Init_ev -> Forall P tx ->
  forall (n : nat) (h : list event),
    exists l, snd (retry_policy sc tx n h) = h ++ l /\ Forall P l.
Proof.
  intros Pe Pi Ptx.
  assert (Pc : forall h, Forall P (check_init sc h)).
  { intros h. unfold check_init.
    destruct (err sc h); repeat constructor; auto. }
  induction n as [| n IH]; intros h; cbn [retry_policy].
  - exists []. rewrite app_nil_r. split; [reflexivity | constructor].
  - destruct (err sc (h ++ check_init sc h ++ tx)).
    + destruct (IH ((h ++ check_init sc h ++ tx) ++ [IsStateError_ev true]))
        as (l & E & Hl).
      exists (check_init sc h ++ tx ++ IsStateError_ev true :: l).
      split.
      * rewrite E. rewrite <- !app_assoc. reflexivity.
      * repeat (apply Forall_app; split); auto.
    + exists (check_init sc h ++ tx ++ [IsStateError_ev false]).
      split.
      * cbn [snd]. rewrite <- !app_assoc. reflexivity.
      * repeat (apply Forall_app; split); auto.
Qed.

Lemma retry_policy_seq_calls (P : event -> Prop) (txs : list (list event)) :
  (forall b, P (IsStateError_ev b)) -> P Init_ev -> Forall (Forall P) txs ->
  forall (n : nat) (h : list event),
    exists l, snd (retry_policy_seq sc txs n h) = h ++ l /\ Forall P l.
Proof.
  intros Pe Pi. induction 1 as [| tx txs Ptx Ptxs IH]; intros n h;
    cbn [retry_policy_seq].
  - exists []. rewrite app_nil_r. split; [reflexivity | constructor].
  - destruct (retry_policy_calls P tx Pe Pi Ptx n h) as (l1 & E1 & H1).
    destruct (retry_policy sc tx n h) as [[|] h1]; cbn [snd] in E1; subst h1.
    + destruct (IH n (h ++ l1)) as (l2 & E2 & H2).
      exists (l1 ++ l2). rewrite E2, app_assoc. split; [reflexivity |].
      apply Forall_app. split; assumption.
    + exists l1. split; [reflexivity | assumption].
Qed.

(** A transport that reports an error after every transaction keeps the
    operation in its loop, whatever the budget. *)
Lemma retry_policy_never_returns (tx : list event) :
  (forall h, err sc (h ++ tx) = true) ->
  forall (n : nat) (h : list event), fst (retry_policy sc tx n h) = false.
Proof.
  intros Herr. induction n as [| n IH]; intros h; cbn [retry_policy].
  - reflexivity.
  - rewrite (app_assoc h (check_init sc h) tx), Herr. apply IH.
Qed.

Lemma retry_policy_seq_never_returns (tx : list event) (txs : list (list event)) :
  (forall h, err sc (h ++ tx) = true) ->
  forall (n : nat) (h : list event),
    fst (retry_policy_seq sc (tx :: txs) n h) = false.
Proof.
  intros Herr n h. cbn [retry_policy_seq].
  pose proof (retry_policy_never_returns tx Herr n h) as H.
  destruct (retry_policy sc tx n h) as [[|] h1]; cbn [fst] in H.
  - discriminate.
  - reflexivity.
Qed.

End PolicyFacts.

(** ** The answers that end the attempts *)

Lemma end_answers_open (e : event) (l : list event) :
  closes e = false -> end_answers (e :: l) = end_answers l.
Proof.
  intros H. cbn [end_answers]. rewrite H.
  destruct l as [| [] l]; reflexivity.
Qed.

Lemma end_answers_open_app (l1 l2 : list event) :
  Forall (fun e => closes e = false) l1 ->
  end_answers (l1 ++ l2) = end_answers l2.
Proof.
  induction 1 as [| e l1 He _ IH]; cbn [app].
  - reflexivity.
  - rewrite end_answers_open by exact He. exact IH.
Qed.

Lemma end_answers_close (e : event) (b : bool) (l : list event) :
  closes e = true ->
  end_answers (e :: IsStateError_ev b :: l) = b :: end_answers l.
Proof.
  intros H.
  change (end_answers (e :: IsStateError_ev b :: l))
    with (if closes e then b :: end_answers (IsStateError_ev b :: l)
          else end_answers (IsStateError_ev b :: l)).
  rewrite H, end_answers_open by reflexivity. reflexivity.
Qed.

(** A check splits a log into two parts that are read independently. *)
Lemma end_answers_split (l1 l2 : list event) (b : bool) :
  end_answers (l1 ++ IsStateError_ev b :: l2)
  = end_answers (l1 ++ [IsStateError_ev b]) ++ end_answers l2.
Proof.
  induction l1 as [| e l1 IH].
  - cbn [app]. rewrite !end_answers_open by reflexivity. reflexivity.
  - destruct l1 as [| e' l1].
    + cbn [app] in *. destruct (closes e) eqn:He.
      * rewrite !end_answers_close by exact He.
        rewrite end_answers_open in IH by reflexivity.
        reflexivity.
      * rewrite !(end_answers_open e) by exact He. exact IH.
    + cbn [app] in *.
      assert (Hstep : forall l,
                 end_answers (e :: e' :: l)
                 = (match e' with
                    | IsStateError_ev c => if closes e then [c] else []
                    | _ => []
                    end) ++ end_answers (e' :: l)).
      { intros l. cbn [end_answers].
        destruct e'; try reflexivity.
        destruct (closes e); reflexivity. }
      rewrite !Hstep, IH, app_assoc. reflexivity.
Qed.

Lemma pass_after_succ (k : nat) : true :: pass_after k = pass_after (S k).
Proof. reflexivity. Qed.

Section PolicyAnswers.

Variable sc : Script.

Lemma check_init_open (h : list event) :
  Forall (fun e => closes e = false) (check_init sc h).
Proof.
  unfold check_init. destruct (err sc h); repeat constructor.
Qed.

Lemma attempt_answers (tx : list event) (h l : list event) (b : bool) :
  closing tx ->
  end_answers (check_init sc h ++ tx ++ IsStateError_ev b :: l)
  = b :: end_answers l.
Proof.
  intros (pre & e & -> & He & Hpre).
  rewrite <- app_assoc. cbn [app].
  rewrite app_assoc.
  rewrite end_answers_open_app
    by (apply Forall_app; split; [apply check_init_open | exact Hpre]).
  apply end_answers_close. exact He.
Qed.

(** Under the policy the operation goes on as long as the answer after
    the transaction is an error, and returns at the first that is not. *)
Lemma retry_policy_answers (tx : list event) :
  closing tx ->
  forall (n : nat) (h : list event),
    exists l,
      snd (retry_policy sc tx n h) = h ++ l
      /\ (fst (retry_policy sc tx n h) = true ->
          (exists l0, l = l0 ++ [IsStateError_ev false])
          /\ exists k, (k < n)%nat /\ end_answers l = pass_after k)
      /\ (fst (retry_policy sc tx n h) = false ->
          end_answers l = repeat true n).
Proof.
  intros Htx.
  induction n as [| n IH]; intros h; cbn [retry_policy].
  - exists []. rewrite app_nil_r. cbn [fst snd].
    repeat split; try discriminate; reflexivity.
  - destruct (err sc (h ++ check_init sc h ++ tx)).
    + destruct (IH ((h ++ check_init sc h ++ tx) ++ [IsStateError_ev true]))
        as (l & E & Ht & Hf).
      exists (check_init sc h ++ tx ++ IsStateError_ev true :: l).
      split; [| split].
      * rewrite E, <- !app_assoc. reflexivity.
      * intros R. destruct (Ht R) as ((l0 & ->) & k & Hk & Ek). split.
        -- exists (check_init sc h ++ tx ++ IsStateError_ev true :: l0).
           rewrite <- !app_assoc. reflexivity.
        -- exists (S k). split; [lia |].
           rewrite attempt_answers by exact Htx.
           rewrite Ek. apply pass_after_succ.
      * intros R. rewrite attempt_answers by exact Htx.
        rewrite (Hf R). reflexivity.
    + exists (check_init sc h ++ tx ++ [IsStateError_ev false]).
      cbn [fst snd]. split; [| split].
      * rewrite <- !app_assoc. reflexivity.
      * intros _. split.
        -- exists (check_init sc h ++ tx). rewrite <- app_assoc. reflexivity.
        -- exists 0%nat. split; [lia |].
           rewrite attempt_answers by exact Htx. reflexivity.
      * discriminate.
Qed.

Lemma retry_policy_loops (tx : list event) (n : nat) (h : list event) :
  closing tx ->
  exists l,
    snd (retry_policy sc tx n h) = h ++ l
    /\ loops_outcome n 1 (fst (retry_policy sc tx n h)) (end_answers l).
Proof.
  intros Htx.
  destruct (retry_policy_answers tx Htx n h) as (l & E & Ht & Hf).
  exists l. split; [exact E |].
  unfold loops_outcome.
  destruct (fst (retry_policy sc tx n h)).
  - destruct (Ht eq_refl) as (_ & k & Hk & Ek).
    exists [k]. cbn [length map concat]. rewrite app_nil_r.
    repeat split; auto.
  - exists []. cbn [length map concat app].
    repeat split; auto.
Qed.

Lemma retry_policy_seq_loops (txs : list (list event)) :
  Forall closing txs ->
  forall (n : nat) (h : list event),
    exists l,
      snd (retry_policy_seq sc txs n h) = h ++ l
      /\ loops_outcome n (length txs) (fst (retry_policy_seq sc txs n h))
           (end_answers l).
Proof.
  induction 1 as [| tx txs Htx _ IH]; intros n h; cbn [retry_policy_seq].
  - exists []. rewrite app_nil_r. split; [reflexivity |].
    exists []. repeat split; auto.
  - destruct (retry_policy_answers tx Htx n h) as (l1 & E1 & Ht & Hf).
    destruct (retry_policy sc tx n h) as [[|] h1]; cbn [fst snd] in *; subst h1.
    + destruct (Ht eq_refl) as ((l0 & ->) & k & Hk & Ek).
      destruct (IH n (h ++ l0 ++ [IsStateError_ev false])) as (l2 & E2 & H2).
      exists ((l0 ++ [IsStateError_ev false]) ++ l2).
      split; [rewrite E2, <- !app_assoc; reflexivity |].
      rewrite <- app_assoc. cbn [app].
      rewrite end_answers_split, Ek.
      unfold loops_outcome in *.
      destruct (fst (retry_policy_seq sc txs n (h ++ l0 ++ [IsStateError_ev false]))).
      * destruct H2 as (ks & Hlen & Hks & ->).
        exists (k :: ks). cbn [length map concat].
        repeat split; auto.
      * destruct H2 as (ks & Hlen & Hks & ->).
        exists (k :: ks). cbn [length map concat].
        rewrite app_assoc.
        repeat split; auto. lia.
    + exists l1. split; [reflexivity |].
      exists []. cbn [length map concat app].
      repeat split; auto. lia.
Qed.

End PolicyAnswers.

(** ** From a trace to what was added to the history *)

Section TraceFacts.

Variable sc : Script.
Context {A : Type}.
Variable w : world (list event).
Variable res : outcome A * world (list event).

Lemma trace_adds (P : event -> Prop) (tx : list event) (fuel : nat) :
  trace res = retry_policy sc tx fuel (i2c w) ->
  (forall b, P (IsStateError_ev b)) -> P Init_ev -> Forall P tx ->
  adds P w res.
Proof.
  intros Ht Pe Pi Ptx.
  destruct (retry_policy_calls sc P tx Pe Pi Ptx fuel (i2c w)) as (l & E & Hl).
  exists l. rewrite <- Ht in E. split; assumption.
Qed.

Lemma trace_seq_adds (P : event -> Prop) (txs : list (list event)) (fuel : nat) :
  trace res = retry_policy_seq sc txs fuel (i2c w) ->
  (forall b, P (IsStateError_ev b)) -> P Init_ev -> Forall (Forall P) txs ->
  adds P w res.
Proof.
  intros Ht Pe Pi Ptxs.
  destruct (retry_policy_seq_calls sc P txs Pe Pi Ptxs fuel (i2c w))
    as (l & E & Hl).
  exists l. rewrite <- Ht in E. split; assumption.
Qed.

Lemma trace_answers (tx : list event) (fuel : nat) :
  trace res = retry_policy sc tx fuel (i2c w) ->
  closing tx ->
  answers_of fuel 1 w res.
Proof.
  intros Ht Htx.
  destruct (retry_policy_loops sc tx fuel (i2c w) Htx) as (l & E & Hl).
  exists l. rewrite <- Ht in E, Hl. split; assumption.
Qed.

Lemma trace_seq_answers (txs : list (list event)) (fuel : nat) :
  trace res = retry_policy_seq sc txs fuel (i2c w) ->
  Forall closing txs ->
  answers_of fuel (length txs) w res.
Proof.
  intros Ht Htxs.
  destruct (retry_policy_seq_loops sc txs Htxs fuel (i2c w)) as (l & E & Hl).
  exists l. rewrite <- Ht in E, Hl. split; assumption.
Qed.

Lemma trace_never_returns (tx : list event) (fuel : nat) :
  trace res = retry_policy sc tx fuel (i2c w) ->
  (forall h, err sc (h ++ tx) = true) ->
  is_returned (fst res) = false.
Proof.
  intros Ht Herr.
  pose proof (retry_policy_never_returns sc tx Herr fuel (i2c w)) as H.
  rewrite <- Ht in H. exact H.
Qed.

Lemma trace_seq_never_returns (tx : list event) (txs : list (list event))
    (fuel : nat) :
  trace res = retry_policy_seq sc (tx :: txs) fuel (i2c w) ->
  (forall h, err sc (h ++ tx) = true) ->
  is_returned (fst res) = false.
Proof.
  intros Ht Herr.
  pose proof (retry_policy_seq_never_returns sc tx txs Herr fuel (i2c w)) as H.
  rewrite <- Ht in H. exact H.
Qed.

End TraceFacts.

(** ** The shape of the transactions *)

Lemma closing_intro (pre : list event) (e : event) :
  closes e = true -> Forall (fun x => closes x = false) pre ->
  closing (pre ++ [e]).
Proof. intros He Hpre. exists pre, e. auto. Qed.

Lemma closing_write_byte (address value : Z) :
  closing (Transaction.write_byte address value).
Proof.
  apply (closing_intro [_; _; _] Stop_ev); [reflexivity | repeat constructor].
Qed.

Lemma closing_write_halfword (address value : Z) :
  closing (Transaction.write_halfword address value).
Proof.
  apply (closing_intro [_; _; _; _] Stop_ev); [reflexivity | repeat constructor].
Qed.

Lemma closing_read_byte (address : Z) : closing (Transaction.read_byte address).
Proof.
  apply (closing_intro [_; _; _] ReadByte_ev); [reflexivity | repeat constructor].
Qed.

Lemma closing_read_halfword (address : Z) :
  closing (Transaction.read_halfword address).
Proof.
  apply (closing_intro [_; _; _] ReadHalfWord_ev);
    [reflexivity | repeat constructor].
Qed.

Lemma closing_read_block (data address data_size : Z) :
  closing (Transaction.read_block data address data_size).
Proof.
  apply (closing_intro [_; _; _] (ReadMultipleBytes_ev data data_size));
    [reflexivity | repeat constructor].
Qed.

Lemma Forall_map_const {X Y : Type} (P : Y -> Prop) (f : X -> Y)
    (l : list X) :
  (forall x, P (f x)) -> Forall P (map f l).
Proof.
  intros H. induction l as [| x l IH]; cbn [map]; constructor; auto.
Qed.

Lemma closing_write_page (r : Z -> Z) (data address data_size : Z) :
  closing (Transaction.write_page r data address data_size).
Proof.
  unfold Transaction.write_page. rewrite app_assoc.
  apply closing_intro; [reflexivity |].
  cbn [app]. repeat constructor.
  apply Forall_map_const. reflexivity.
Qed.

Lemma closing_erase_page (model : EepromM24CModel) (address : Z) :
  closing (Transaction.erase_page model address).
Proof.
  unfold Transaction.erase_page. rewrite app_assoc.
  apply closing_intro; [reflexivity |].
  cbn [app]. repeat constructor.
  apply Forall_map_const. reflexivity.
Qed.

(** A write transaction has one start condition, the address byte, data
    bytes and the stop condition: whatever holds of these holds of it. *)
Lemma Forall_write_page (P : event -> Prop) (r : Z -> Z)
    (data address data_size : Z) :
  P (StartPolling_ev (EepromM24C.HandleDeviceSelectCode address) TX false) ->
  (forall b, P (WriteByte_ev b)) -> P Stop_ev ->
  Forall P (Transaction.write_page r data address data_size).
Proof.
  intros Ps Pw Pstop. unfold Transaction.write_page.
  cbn [app]. repeat constructor; auto.
  apply Forall_app. split.
  - apply Forall_map_const. intros x. apply Pw.
  - repeat constructor; auto.
Qed.

Lemma Forall_erase_page (P : event -> Prop) (model : EepromM24CModel)
    (address : Z) :
  P (StartPolling_ev (EepromM24C.HandleDeviceSelectCode address) TX false) ->
  (forall b, P (WriteByte_ev b)) -> P Stop_ev ->
  Forall P (Transaction.erase_page model address).
Proof.
  intros Ps Pw Pstop. unfold Transaction.erase_page.
  cbn [app]. repeat constructor; auto.
  apply Forall_app. split.
  - apply Forall_map_const. intros x. apply Pw.
  - repeat constructor; auto.
Qed.

(** * The device-select code *)

Section SelectCode.

Variable sc : Script.

Lemma WriteByte_selects (fuel : nat) (address value : Z) (w : world (list event)) :
  adds (selects address) w
    (EepromM24C.WriteByte (transport := bus sc) fuel address value w).
Proof.
  apply (trace_adds sc w _ _ (Transaction.write_byte address value) fuel);
    [apply WriteByte_trace | intros; exact I | exact I |].
  repeat constructor.
Qed.

Lemma WriteHalfWord_selects (fuel : nat) (address value : Z)
    (w : world (list event)) :
  adds (selects address) w
    (EepromM24C.WriteHalfWord (transport := bus sc) fuel address value w).
Proof.
  apply (trace_adds sc w _ _ (Transaction.write_halfword address value) fuel);
    [apply WriteHalfWord_trace | intros; exact I | exact I |].
  repeat constructor.
Qed.

Lemma ReadByte_selects (fuel : nat) (address : Z) (w : world (list event)) :
  adds (selects address) w
    (EepromM24C.ReadByte (transport := bus sc) fuel address w).
Proof.
  apply (trace_adds sc w _ _ (Transaction.read_byte address) fuel);
    [apply ReadByte_trace | intros; exact I | exact I |].
  repeat constructor.
Qed.

Lemma ReadHalfWord_selects (fuel : nat) (address : Z) (w : world (list event)) :
  adds (selects address) w
    (EepromM24C.ReadHalfWord (transport := bus sc) fuel address w).
Proof.
  apply (trace_adds sc w _ _ (Transaction.read_halfword address) fuel);
    [apply ReadHalfWord_trace | intros; exact I | exact I |].
  repeat constructor.
Qed.

Lemma ReadBlock_selects (fuel : nat) (data address data_size : Z)
    (w : world (list event)) :
  adds (selects address) w
    (EepromM24C.ReadBlock (transport := bus sc) fuel data address data_size w).
Proof.
  apply (trace_adds sc w _ _ (Transaction.read_block data address data_size) fuel);
    [apply ReadBlock_trace | intros; exact I | exact I |].
  repeat constructor.
Qed.

Lemma ErasePage_selects (model : EepromM24CModel) (fuel : nat) (address : Z)
    (w : world (list event)) :
  adds (selects address) w
    (EepromM24C.ErasePage (transport := bus sc) model fuel address w).
Proof.
  apply (trace_adds sc w _ _ (Transaction.erase_page model address) fuel);
    [apply ErasePage_trace | intros; exact I | exact I |].
  apply Forall_erase_page; try reflexivity; intros; exact I.
Qed.

End SelectCode.

(** C1, as stated, at address 0x0080: the select code is not 0xA2.  Bit 7
    of the address is below the chip-enable bits, which are bits 8 to 10. *)
Lemma select_code_of_0x0080_is_not_0xA2 :
  EepromM24C.HandleDeviceSelectCode 0x0080 <> 0xA2.
Proof. vm_compute. discriminate. Qed.

(** C1 (amended).  For every address the device-select code is
    [DEVICE_ID | ((address >> 7) & CHIP_ENABLE_ADRESS_MASK)], a function of
    the address alone; for the M24C16 it is 0xA0 at 0x0000, 0xA0 at 0x0080,
    0xA2 at 0x0100 and 0xAE at 0x0780; and every start condition of every
    operation that takes one address is addressed with it. *)
Theorem device_select_code :
  forall (sc : Script) (model : EepromM24CModel) (fuel : nat)
         (address value data data_size : Z) (w : world (list event)),
    EepromM24C.HandleDeviceSelectCode address
    = Z.lor EepromM24C.DEVICE_ID
        (Z.land (Z.shiftr address EepromM24C.CHIP_ENABLE_ADRESS_SHIFT)
                EepromM24C.CHIP_ENABLE_ADRESS_MASK)
    /\ EepromM24C.HandleDeviceSelectCode 0x0000 = 0xA0
    /\ EepromM24C.HandleDeviceSelectCode 0x0080 = 0xA0
    /\ EepromM24C.HandleDeviceSelectCode 0x0100 = 0xA2
    /\ EepromM24C.HandleDeviceSelectCode 0x0780 = 0xAE
    /\ adds (selects address) w
         (EepromM24C.WriteByte (transport := bus sc) fuel address value w)
    /\ adds (selects address) w
         (EepromM24C.WriteHalfWord (transport := bus sc) fuel address value w)
    /\ adds (selects address) w
         (EepromM24C.ReadByte (transport := bus sc) fuel address w)
    /\ adds (selects address) w
         (EepromM24C.ReadHalfWord (transport := bus sc) fuel address w)
    /\ adds (selects address) w
         (EepromM24C.ReadBlock (transport := bus sc) fuel data address data_size w)
    /\ adds (selects address) w
         (EepromM24C.ErasePage (transport := bus sc) model fuel address w).
Proof.
  intros sc model fuel address value data data_size w.
  split; [apply select_code_unfold |].
  repeat (split; [reflexivity |]).
  split; [apply WriteByte_selects |].
  split; [apply WriteHalfWord_selects |].
  split; [apply ReadByte_selects |].
  split; [apply ReadHalfWord_selects |].
  split; [apply ReadBlock_selects |].
  apply ErasePage_selects.
Qed.

(** * Halfword write *)

(** C5.  [WriteHalfWord] follows the retry policy with one transmit
    transaction: the start condition, the low 8 bits of the address, the
    low byte of the value, its high byte, and the stop condition.  The two
    data bytes are the little-endian halves of the 16-bit value, the order
    in which the transport's halfword read assembles them. *)
Theorem WriteHalfWord_little_endian :
  forall (sc : Script) (fuel : nat) (address value : Z) (w : world (list event)),
    trace (EepromM24C.WriteHalfWord (transport := bus sc) fuel address value w)
    = retry_policy sc
        [StartPolling_ev (EepromM24C.HandleDeviceSelectCode address) TX false;
         WriteByte_ev (address mod 256);
         WriteByte_ev (uint8 value);
         WriteByte_ev (uint8 (Z.shiftr value 8));
         Stop_ev]
        fuel (i2c w)
    /\ uint8 value = value mod 256
    /\ uint8 (Z.shiftr value 8) = (value / 256) mod 256
    /\ uint8 value + 256 * uint8 (Z.shiftr value 8) = uint16 value.
Proof.
  intros sc fuel address value w.
  split; [exact (proj1 (WriteHalfWord_trace sc fuel address value w)) |].
  split; [reflexivity |].
  split; [| apply little_endian_halves].
  rewrite Z.shiftr_div_pow2 by lia. reflexivity.
Qed.

(** * Reads *)

Section ReadValues.

Variable sc : Script.

Lemma ReadByte_value (fuel : nat) (address : Z) (w w' : world (list event))
    (v : Z) :
  EepromM24C.ReadByte (transport := bus sc) fuel address w = (Returned v, w') ->
  exists h, i2c w' = h ++ [ReadByte_ev; IsStateError_ev false]
            /\ v = uint8 (byte_in sc h).
Proof.
  unfold EepromM24C.ReadByte. intros H.
  apply do_while_last in H. destruct H as (w0 & w1 & Hb & _ & ->).
  revert Hb. run_calls.
  destruct (err sc (i2c w0)); cbn [i2c ram]; intros Hb;
    inversion Hb; subst; cbn [i2c];
    eexists; (split; [rewrite <- app_assoc; reflexivity | reflexivity]).
Qed.

Lemma ReadHalfWord_value (fuel : nat) (address : Z) (w w' : world (list event))
    (v : Z) :
  EepromM24C.ReadHalfWord (transport := bus sc) fuel address w = (Returned v, w') ->
  exists h, i2c w' = h ++ [ReadHalfWord_ev; IsStateError_ev false]
            /\ v = uint16 (halfword_in sc h).
Proof.
  unfold EepromM24C.ReadHalfWord. intros H.
  apply do_while_last in H. destruct H as (w0 & w1 & Hb & _ & ->).
  revert Hb. run_calls.
  destruct (err sc (i2c w0)); cbn [i2c ram]; intros Hb;
    inversion Hb; subst; cbn [i2c];
    eexists; (split; [rewrite <- app_assoc; reflexivity | reflexivity]).
Qed.

Lemma ReadByte_never_stops (fuel : nat) (address : Z) (w : world (list event)) :
  adds not_stop w (EepromM24C.ReadByte (transport := bus sc) fuel address w).
Proof.
  apply (trace_adds sc w _ _ (Transaction.read_byte address) fuel);
    [apply ReadByte_trace | | |]; repeat constructor; discriminate.
Qed.

Lemma ReadHalfWord_never_stops (fuel : nat) (address : Z)
    (w : world (list event)) :
  adds not_stop w (EepromM24C.ReadHalfWord (transport := bus sc) fuel address w).
Proof.
  apply (trace_adds sc w _ _ (Transaction.read_halfword address) fuel);
    [apply ReadHalfWord_trace | | |]; repeat constructor; discriminate.
Qed.

End ReadValues.

(** C6.  [ReadByte] and [ReadHalfWord] follow the retry policy with a
    transaction of four calls: a start condition in transmit mode, the low
    8 bits of the address, a start condition in receive mode, and the
    transport's read of one byte or of one halfword.  No call of the
    driver during a read is [Stop], and the value returned is the one the
    transport's read gave in the attempt that passed. *)
Theorem reads_leave_the_stop_to_the_transport :
  forall (sc : Script) (fuel : nat) (address : Z) (w : world (list event)),
    trace (EepromM24C.ReadByte (transport := bus sc) fuel address w)
    = retry_policy sc
        [StartPolling_ev (EepromM24C.HandleDeviceSelectCode address) TX false;
         WriteByte_ev (address mod 256);
         StartPolling_ev (EepromM24C.HandleDeviceSelectCode address) RX false;
         ReadByte_ev]
        fuel (i2c w)
    /\ trace (EepromM24C.ReadHalfWord (transport := bus sc) fuel address w)
       = retry_policy sc
           [StartPolling_ev (EepromM24C.HandleDeviceSelectCode address) TX true;
            WriteByte_ev (address mod 256);
            StartPolling_ev (EepromM24C.HandleDeviceSelectCode address) RX false;
            ReadHalfWord_ev]
           fuel (i2c w)
    /\ adds not_stop w (EepromM24C.ReadByte (transport := bus sc) fuel address w)
    /\ adds not_stop w
         (EepromM24C.ReadHalfWord (transport := bus sc) fuel address w)
    /\ (forall v w',
          EepromM24C.ReadByte (transport := bus sc) fuel address w
          = (Returned v, w') ->
          exists h, i2c w' = h ++ [ReadByte_ev; IsStateError_ev false]
                    /\ v = uint8 (byte_in sc h))
    /\ (forall v w',
          EepromM24C.ReadHalfWord (transport := bus sc) fuel address w
          = (Returned v, w') ->
          exists h, i2c w' = h ++ [ReadHalfWord_ev; IsStateError_ev false]
                    /\ v = uint16 (halfword_in sc h)).
Proof.
  intros sc fuel address w.
  split; [exact (proj1 (ReadByte_trace sc fuel address w)) |].
  split; [exact (proj1 (ReadHalfWord_trace sc fuel address w)) |].
  split; [apply ReadByte_never_stops |].
  split; [apply ReadHalfWord_never_stops |].
  split; intros v w'; [apply ReadByte_value | apply ReadHalfWord_value].
Qed.

(** A read that returns on a transport that does not fail: the hypothesis
    of the last two parts of C6 is met. *)
Lemma reads_leave_the_stop_to_the_transport_witness :
  exists h, [IsStateError_ev false;
             StartPolling_ev 0xA2 TX false; WriteByte_ev 0x34;
             StartPolling_ev 0xA2 RX false; ReadByte_ev; IsStateError_ev false]
            = h ++ [ReadByte_ev; IsStateError_ev false]
            /\ 0 = uint8 (byte_in never_fails h).
Proof.
  apply (proj1 (proj2 (proj2 (proj2 (proj2
           (reads_leave_the_stop_to_the_transport never_fails 1 0x0134
              (start (fun _ => 0))))))) 0 (World _ (fun _ => 0))).
  reflexivity.
Defined.

(** * Page write and block write *)

Lemma Zseq_In (k : Z) (len : nat) (i : Z) :
  In k (Zseq i len) <-> i <= k < i + Z.of_nat len.
Proof.
  revert i. induction len as [| len IH]; intros i; cbn [Zseq In].
  - lia.
  - rewrite IH. lia.
Qed.

Lemma Zrange_In (k n : Z) : In k (Zrange n) <-> 0 <= k < n.
Proof. unfold Zrange. rewrite Zseq_In. lia. Qed.

Lemma Zrange_length (n : Z) : length (Zrange n) = Z.to_nat n.
Proof. apply Zseq_length. Qed.

Lemma Zseq_nth (len : nat) (i : Z) (j : nat) :
  (j < len)%nat -> nth j (Zseq i len) 0 = i + Z.of_nat j.
Proof.
  revert i j. induction len as [| len IH]; intros i j Hj; [lia |].
  destruct j as [| j]; cbn [Zseq nth].
  - lia.
  - rewrite IH by lia. lia.
Qed.

Lemma nth_map_in {X Y : Type} (f : X -> Y) (l : list X) (j : nat) (d : Y)
    (d' : X) :
  (j < length l)%nat -> nth j (map f l) d = f (nth j l d').
Proof.
  revert j. induction l as [| x l IH]; intros [| j] H; cbn in *; try lia.
  - reflexivity.
  - apply IH. lia.
Qed.

Lemma page_schedule_length (model : EepromM24CModel) (data address data_size : Z) :
  length (page_schedule model data address data_size)
  = S (Z.to_nat (data_size / PAGE_SIZE model)).
Proof.
  unfold page_schedule.
  rewrite length_app, length_map, Zrange_length. cbn [length]. lia.
Qed.

Lemma page_schedule_full (model : EepromM24CModel) (data address data_size k : Z) :
  0 <= k < data_size / PAGE_SIZE model ->
  nth (Z.to_nat k) (page_schedule model data address data_size) (0, 0, 0)
  = (data + k * PAGE_SIZE model, uint16 (address + k * PAGE_SIZE model),
     PAGE_SIZE model).
Proof.
  intros Hk. unfold page_schedule.
  rewrite app_nth1 by (rewrite length_map, Zrange_length; lia).
  rewrite (nth_map_in _ _ _ _ 0) by (rewrite Zrange_length; lia).
  unfold Zrange.
  rewrite Zseq_nth by lia.
  rewrite Z2Nat.id by lia. reflexivity.
Qed.

Lemma page_schedule_last (model : EepromM24CModel) (data address data_size : Z) :
  nth (Z.to_nat (data_size / PAGE_SIZE model))
      (page_schedule model data address data_size) (0, 0, 0)
  = (data + data_size / PAGE_SIZE model * PAGE_SIZE model,
     uint16 (address + data_size / PAGE_SIZE model * PAGE_SIZE model),
     data_size mod PAGE_SIZE model).
Proof.
  unfold page_schedule.
  rewrite app_nth2 by (rewrite length_map, Zrange_length; lia).
  rewrite length_map, Zrange_length, Nat.sub_diag. reflexivity.
Qed.

(** C2.  For a 16-bit address and size, [WriteBlock] is the page writes
    of the schedule one after the other: [data_size / PAGE_SIZE] of them
    of [PAGE_SIZE] bytes, the k-th one [k * PAGE_SIZE] further in the
    buffer and in the address space (as a 16-bit address), then one of
    [data_size % PAGE_SIZE] bytes.  Writing 33 bytes at address 0 with
    pages of 16 bytes is three page writes of 16, 16 and 1 bytes, and on
    a transport that does not fail three transactions of that many data
    bytes. *)
Theorem WriteBlock_segmentation :
  forall (Bus : Type) (transport : I2C_M24C Bus) (model : EepromM24CModel)
         (fuel : nat) (data address data_size : Z) (w : world Bus),
    0 <= address < 65536 ->
    0 <= data_size < 65536 ->
    EepromM24C.WriteBlock model fuel data address data_size w
    = write_pages fuel (page_schedule model data address data_size) w
    /\ length (page_schedule model data address data_size)
       = S (Z.to_nat (data_size / PAGE_SIZE model))
    /\ (forall k, 0 <= k < data_size / PAGE_SIZE model ->
          nth (Z.to_nat k) (page_schedule model data address data_size) (0, 0, 0)
          = (data + k * PAGE_SIZE model,
             uint16 (address + k * PAGE_SIZE model),
             PAGE_SIZE model))
    /\ nth (Z.to_nat (data_size / PAGE_SIZE model))
           (page_schedule model data address data_size) (0, 0, 0)
       = (data + data_size / PAGE_SIZE model * PAGE_SIZE model,
          uint16 (address + data_size / PAGE_SIZE model * PAGE_SIZE model),
          data_size mod PAGE_SIZE model)
    /\ (address + data_size < 65536 ->
        forall k, 0 <= k <= data_size / PAGE_SIZE model ->
          uint16 (address + k * PAGE_SIZE model) = address + k * PAGE_SIZE model)
    /\ page_schedule M24C16 data 0 33
       = [(data, 0, 16); (data + 16, 16, 16); (data + 32, 32, 1)]
    /\ (forall r,
          payload_sizes None
            (i2c (snd (EepromM24C.WriteBlock (transport := bus never_fails)
                         M24C16 1 data 0 33 (start r))))
          = [16; 16; 1]).
Proof.
  intros Bus transport model fuel data address data_size w Ha Hs.
  assert (Hp : PAGE_SIZE model = 16) by (destruct model; reflexivity).
  split; [apply WriteBlock_pages; assumption |].
  split; [apply page_schedule_length |].
  split; [apply page_schedule_full |].
  split; [apply page_schedule_last |].
  split.
  - intros Hfit k Hk. apply uint16_small.
    rewrite Hp in *. Z.div_mod_to_equations. lia.
  - split.
    + unfold page_schedule. cbn.
      change (Pos.to_nat 2) with 2%nat. cbn.
      rewrite Z.add_0_r. reflexivity.
    + intros r. vm_compute. reflexivity.
Qed.

(** C2 at 33 bytes from address 0. *)
Lemma WriteBlock_segmentation_witness :
  EepromM24C.WriteBlock (transport := bus never_fails) M24C16 1 0 0 33
    (start (fun _ => 0))
  = write_pages (transport := bus never_fails) 1
      [(0, 0, 16); (16, 16, 16); (32, 32, 1)] (start (fun _ => 0)).
Proof.
  apply (WriteBlock_segmentation (list event) (bus never_fails) M24C16 1 0 0 33
           (start (fun _ => 0))); lia.
Defined.

(** C7.  A page write of no bytes follows the retry policy with a
    transaction of the start condition, the address byte and the stop
    condition, and no data byte; it returns at once when the transport
    does not fail.  It is the last page write of every block write whose
    size is a multiple of the page size. *)
Theorem empty_page_write :
  forall (sc : Script) (model : EepromM24CModel) (fuel : nat)
         (data address data_size : Z) (w : world (list event)),
    trace (EepromM24C.WritePage (transport := bus sc) fuel data address 0 w)
    = retry_policy sc
        [StartPolling_ev (EepromM24C.HandleDeviceSelectCode address) TX false;
         WriteByte_ev (address mod 256);
         Stop_ev]
        fuel (i2c w)
    /\ trace (EepromM24C.WritePage (transport := bus never_fails) (S fuel)
                data address 0 w)
       = (true,
          i2c w
          ++ [IsStateError_ev false;
              StartPolling_ev (EepromM24C.HandleDeviceSelectCode address) TX false;
              WriteByte_ev (address mod 256);
              Stop_ev;
              IsStateError_ev false])
    /\ (0 <= address < 65536 ->
        0 <= data_size < 65536 ->
        data_size mod PAGE_SIZE model = 0 ->
        EepromM24C.WriteBlock (transport := bus sc) model fuel data address
          data_size w
        = (write_pages (transport := bus sc) fuel
             (map (fun k => (data + k * PAGE_SIZE model,
                             uint16 (address + k * PAGE_SIZE model),
                             PAGE_SIZE model))
                  (Zrange (data_size / PAGE_SIZE model))) ;;
           EepromM24C.WritePage (transport := bus sc) fuel (data + data_size)
             (uint16 (address + data_size)) 0) w).
Proof.
  intros sc model fuel data address data_size w.
  assert (H0 : 0 <= 0 < 256) by lia.
  split; [exact (proj1 (WritePage_trace sc fuel data address 0 w H0)) |].
  split.
  - rewrite (proj1 (WritePage_trace never_fails (S fuel) data address 0 w H0)).
    cbn. rewrite <- app_assoc. reflexivity.
  - intros Ha Hs Hm.
    assert (Hp : PAGE_SIZE model = 16) by (destruct model; reflexivity).
    rewrite WriteBlock_pages by assumption.
    unfold page_schedule. rewrite write_pages_app, Hm.
    replace (data_size / PAGE_SIZE model * PAGE_SIZE model) with data_size
      by (rewrite Hp in *; Z.div_mod_to_equations; lia).
    apply bind_ext. intros _ w1.
    cbn [write_pages]. apply bind_ret_tt.
Qed.

(** C7 at a block of two full pages. *)
Lemma empty_page_write_witness :
  EepromM24C.WriteBlock (transport := bus never_fails) M24C16 1 0 0 32
    (start (fun _ => 0))
  = (write_pages (transport := bus never_fails) 1
       (map (fun k => (0 + k * 16, uint16 (0 + k * 16), 16)) (Zrange (32 / 16))) ;;
     EepromM24C.WritePage (transport := bus never_fails) 1 (0 + 32)
       (uint16 (0 + 32)) 0) (start (fun _ => 0)).
Proof.
  apply (empty_page_write never_fails M24C16 1 0 0 32 (start (fun _ => 0)));
    [lia | lia | reflexivity].
Defined.

(** * Erase *)

Lemma erase_offsets_spec (model : EepromM24CModel) (o : Z) :
  In o (erase_offsets model)
  <-> 0 <= o < MEMORY_SIZE model /\ o mod PAGE_SIZE model = 0.
Proof.
  unfold erase_offsets. rewrite in_map_iff.
  destruct model; cbn [PAGE_SIZE MEMORY_SIZE].
  change (2048 / 16) with 128.
  split.
  - intros (k & <- & Hk). apply Zrange_In in Hk.
    split; [lia |]. apply Z.mod_mul. lia.
  - intros (Ho & Hm). exists (o / 16). split.
    + Z.div_mod_to_equations. lia.
    + apply Zrange_In. Z.div_mod_to_equations. lia.
Qed.

Lemma erase_offsets_cover (model : EepromM24CModel) (a : Z) :
  0 <= a < MEMORY_SIZE model ->
  exists o, In o (erase_offsets model) /\ o <= a < o + PAGE_SIZE model.
Proof.
  intros Ha. exists (a / PAGE_SIZE model * PAGE_SIZE model).
  rewrite erase_offsets_spec.
  destruct model; cbn [PAGE_SIZE MEMORY_SIZE] in *.
  repeat split; Z.div_mod_to_equations; lia.
Qed.

(** C4.  [ChipErase] is one [ErasePage] at each page offset, in order;
    the offsets are the multiples of [PAGE_SIZE] from 0 up to
    [MEMORY_SIZE], 128 of them for the M24C16, and every address of the
    device lies in the page of one of them.  Each [ErasePage] follows the
    retry policy with a transaction of the start condition, the address
    byte, [PAGE_SIZE] bytes 0xFF and the stop condition.  On a transport
    that does not fail the M24C16 sees 128 transactions of 16 data
    bytes. *)
Theorem ChipErase_covers_the_device :
  forall (sc : Script) (model : EepromM24CModel) (fuel : nat) (address : Z)
         (w : world (list event)),
    EepromM24C.ChipErase (transport := bus sc) model fuel w
    = erase_pages (transport := bus sc) model fuel (erase_offsets model) w
    /\ (forall o, In o (erase_offsets model)
                  <-> 0 <= o < MEMORY_SIZE model /\ o mod PAGE_SIZE model = 0)
    /\ (forall a, 0 <= a < MEMORY_SIZE model ->
          exists o, In o (erase_offsets model) /\ o <= a < o + PAGE_SIZE model)
    /\ length (erase_offsets M24C16) = 128%nat
    /\ trace (EepromM24C.ErasePage (transport := bus sc) model fuel address w)
       = retry_policy sc
           ([StartPolling_ev (EepromM24C.HandleDeviceSelectCode address) TX false;
             WriteByte_ev (address mod 256)]
            ++ repeat (WriteByte_ev 0xFF) (Z.to_nat (PAGE_SIZE model))
            ++ [Stop_ev])
           fuel (i2c w)
    /\ (forall r,
          payload_sizes None
            (i2c (snd (EepromM24C.ChipErase (transport := bus never_fails)
                         M24C16 1 (start r))))
          = repeat 16 128).
Proof.
  intros sc model fuel address w.
  split; [apply ChipErase_pages |].
  split; [apply erase_offsets_spec |].
  split; [apply erase_offsets_cover |].
  split; [reflexivity |].
  split.
  - rewrite (proj1 (ErasePage_trace sc model fuel address w)).
    destruct model. reflexivity.
  - intros r. vm_compute. reflexivity.
Qed.

(** C4: an address of the device and the page that erases it. *)
Lemma ChipErase_covers_the_device_witness :
  exists o, In o (erase_offsets M24C16) /\ o <= 1000 < o + PAGE_SIZE M24C16.
Proof.
  apply (ChipErase_covers_the_device never_fails M24C16 1 0 (start (fun _ => 0))).
  cbn. lia.
Defined.

(** * The retry policy *)

(** A block write of one full page at 0x00F0, on a transport that reports
    an error once, after the transaction of the empty last page at 0x0100:
    the page at 0x00F0 is sent once, the page at 0x0100 twice. *)
Lemma WriteBlock_retries_the_failed_page :
  trace (EepromM24C.WriteBlock (transport := bus (fails_at 25)) M24C16 2 0 0x00F0 16
           (start (fun _ => 0)))
  = (true,
     [IsStateError_ev false;
      StartPolling_ev 0xA0 TX false; WriteByte_ev 0xF0]
     ++ repeat (WriteByte_ev 0) 16
     ++ [Stop_ev; IsStateError_ev false;
         IsStateError_ev false;
         StartPolling_ev 0xA2 TX false; WriteByte_ev 0x00; Stop_ev;
         IsStateError_ev true;
         IsStateError_ev false;
         StartPolling_ev 0xA2 TX false; WriteByte_ev 0x00; Stop_ev;
         IsStateError_ev false]).
Proof. vm_compute. reflexivity. Qed.

(** The same block write on a transport that does not fail. *)
Lemma WriteBlock_without_failure :
  trace (EepromM24C.WriteBlock (transport := bus never_fails) M24C16 1 0 0x00F0 16
           (start (fun _ => 0)))
  = (true,
     IsStateError_ev false
     :: ([StartPolling_ev 0xA0 TX false; WriteByte_ev 0xF0]
         ++ repeat (WriteByte_ev 0) 16
         ++ [Stop_ev; IsStateError_ev false;
             IsStateError_ev false;
             StartPolling_ev 0xA2 TX false; WriteByte_ev 0x00; Stop_ev])
     ++ [IsStateError_ev false]).
Proof. vm_compute. reflexivity. Qed.

(** C3, as stated, at [WriteBlock]: a block write is not retried from its
    beginning.  Whatever the operation puts on the bus when nothing
    fails, a failure after its last page is followed by that page alone,
    not by the whole of it. *)
Lemma WriteBlock_is_not_retried_as_a_whole :
  ~ follows_retry_policy
      (fun sc fuel =>
         EepromM24C.WriteBlock (transport := bus sc) M24C16 fuel 0 0x00F0 16
           (start (fun _ => 0))).
Proof.
  intros [tx H].
  pose proof (H never_fails 1%nat) as H1.
  rewrite WriteBlock_without_failure in H1.
  cbn [retry_policy check_init never_fails err app] in H1.
  injection H1 as H1.
  assert (Htx : tx = [StartPolling_ev 0xA0 TX false; WriteByte_ev 0xF0]
                     ++ repeat (WriteByte_ev 0) 16
                     ++ [Stop_ev; IsStateError_ev false;
                         IsStateError_ev false;
                         StartPolling_ev 0xA2 TX false; WriteByte_ev 0x00; Stop_ev]).
  { apply (app_inv_tail [IsStateError_ev false]). rewrite <- H1. reflexivity. }
  subst tx.
  pose proof (H (fails_at 25) 2%nat) as H2.
  rewrite WriteBlock_retries_the_failed_page in H2.
  vm_compute in H2. discriminate H2.
Qed.

Lemma retry_policy_unbounded (tx : list event) (n : nat) (h : list event) :
  closing tx ->
  exists l, retry_policy always_fails tx n h = (false, h ++ l)
            /\ end_answers l = repeat true n.
Proof.
  intros Htx.
  destruct (retry_policy_answers always_fails tx Htx n h) as (l & E & _ & Hf).
  pose proof (retry_policy_never_returns always_fails tx
                (fun _ => eq_refl) n h) as Hn.
  exists l. split; [| exact (Hf Hn)].
  destruct (retry_policy always_fails tx n h) as [b h'].
  cbn [fst snd] in *. subst. reflexivity.
Qed.

(** C3 (amended).  Every operation that is one transaction -- WriteByte,
    WriteHalfWord, ReadByte, ReadHalfWord, ReadBlock, ErasePage and the
    private WritePage -- follows the retry policy: each attempt checks the
    error state, calls Init when it is set, makes the whole transaction
    with the select code of the address, and checks the error state again;
    when it is set the attempt is made again from the first check, and a
    transport that always fails is retried as many times as the budget
    allows, whatever the budget.  WriteBlock and ChipErase are not retried
    as a whole: they are their page operations one after the other, each
    under the policy on its own. *)
Theorem operations_follow_the_retry_policy :
  forall (sc : Script) (model : EepromM24CModel) (fuel : nat)
         (address value data data_size : Z) (w : world (list event)),
    trace (EepromM24C.WriteByte (transport := bus sc) fuel address value w)
    = retry_policy sc (Transaction.write_byte address value) fuel (i2c w)
    /\ trace (EepromM24C.WriteHalfWord (transport := bus sc) fuel address value w)
       = retry_policy sc (Transaction.write_halfword address value) fuel (i2c w)
    /\ trace (EepromM24C.ReadByte (transport := bus sc) fuel address w)
       = retry_policy sc (Transaction.read_byte address) fuel (i2c w)
    /\ trace (EepromM24C.ReadHalfWord (transport := bus sc) fuel address w)
       = retry_policy sc (Transaction.read_halfword address) fuel (i2c w)
    /\ trace (EepromM24C.ReadBlock (transport := bus sc) fuel data address
                data_size w)
       = retry_policy sc (Transaction.read_block data address data_size) fuel
           (i2c w)
    /\ trace (EepromM24C.ErasePage (transport := bus sc) model fuel address w)
       = retry_policy sc (Transaction.erase_page model address) fuel (i2c w)
    /\ (0 <= data_size < 256 ->
        trace (EepromM24C.WritePage (transport := bus sc) fuel data address
                 data_size w)
        = retry_policy sc (Transaction.write_page (ram w) data address data_size)
            fuel (i2c w))
    /\ follows_retry_policy
         (fun sc' fuel' =>
            EepromM24C.WriteByte (transport := bus sc') fuel' address value
              (start (ram w)))
    /\ follows_retry_policy
         (fun sc' fuel' =>
            EepromM24C.WriteHalfWord (transport := bus sc') fuel' address value
              (start (ram w)))
    /\ follows_retry_policy
         (fun sc' fuel' =>
            EepromM24C.ReadByte (transport := bus sc') fuel' address
              (start (ram w)))
    /\ follows_retry_policy
         (fun sc' fuel' =>
            EepromM24C.ReadHalfWord (transport := bus sc') fuel' address
              (start (ram w)))
    /\ follows_retry_policy
         (fun sc' fuel' =>
            EepromM24C.ReadBlock (transport := bus sc') fuel' data address
              data_size (start (ram w)))
    /\ follows_retry_policy
         (fun sc' fuel' =>
            EepromM24C.ErasePage (transport := bus sc') model fuel' address
              (start (ram w)))
    /\ (forall tx n h, closing tx ->
          exists l, retry_policy always_fails tx n h = (false, h ++ l)
                    /\ end_answers l = repeat true n)
    /\ (0 <= address < 65536 -> 0 <= data_size < 65536 ->
        trace (EepromM24C.WriteBlock (transport := bus sc) model fuel data address
                 data_size w)
        = retry_policy_seq sc
            (map (page_transaction (ram w))
                 (page_schedule model data address data_size))
            fuel (i2c w))
    /\ trace (EepromM24C.ChipErase (transport := bus sc) model fuel w)
       = retry_policy_seq sc
           (map (Transaction.erase_page model) (erase_offsets model))
           fuel (i2c w).
Proof.
  intros sc model fuel address value data data_size w.
  split; [apply WriteByte_trace |].
  split; [apply WriteHalfWord_trace |].
  split; [apply ReadByte_trace |].
  split; [apply ReadHalfWord_trace |].
  split; [apply ReadBlock_trace |].
  split; [apply ErasePage_trace |].
  split; [intros Hs; apply WritePage_trace; exact Hs |].
  split; [exists (Transaction.write_byte address value); intros sc' fuel';
          apply WriteByte_trace |].
  split; [exists (Transaction.write_halfword address value); intros sc' fuel';
          apply WriteHalfWord_trace |].
  split; [exists (Transaction.read_byte address); intros sc' fuel';
          apply ReadByte_trace |].
  split; [exists (Transaction.read_halfword address); intros sc' fuel';
          apply ReadHalfWord_trace |].
  split; [exists (Transaction.read_block data address data_size);
          intros sc' fuel'; apply ReadBlock_trace |].
  split; [exists (Transaction.erase_page model address); intros sc' fuel';
          apply ErasePage_trace |].
  split; [intros tx n h; apply retry_policy_unbounded |].
  split; [apply WriteBlock_trace | apply ChipErase_trace].
Qed.

(** C3 (amended) at the block write of the counterexample. *)
Lemma operations_follow_the_retry_policy_witness :
  trace (EepromM24C.WriteBlock (transport := bus (fails_at 25)) M24C16 2 0 0x00F0 16
           (start (fun _ => 0)))
  = retry_policy_seq (fails_at 25)
      (map (page_transaction (fun _ => 0)) (page_schedule M24C16 0 0x00F0 16))
      2 [].
Proof.
  apply (operations_follow_the_retry_policy (fails_at 25) M24C16 2 0x00F0 0 0 16
           (start (fun _ => 0))); lia.
Defined.

(** * Returning *)

(** C8, as stated, at [WriteBlock]: on a transport that does not fail, the
    block write of one full page makes two checks after a transaction and
    both answer [false].  It did not return at the first one. *)
Lemma WriteBlock_goes_on_after_a_passing_check :
  ~ answers_of 1 1 (start (fun _ => 0))
      (EepromM24C.WriteBlock (transport := bus never_fails) M24C16 1 0 0x00F0 16
         (start (fun _ => 0))).
Proof.
  unfold answers_of.
  assert (Tr : is_returned
                 (fst (EepromM24C.WriteBlock (transport := bus never_fails)
                         M24C16 1 0 0x00F0 16 (start (fun _ => 0)))) = true)
    by (vm_compute; reflexivity).
  rewrite Tr.
  intros (l & E & ks & Hlen & Hks & Hans).
  assert (Ha : end_answers
                 (i2c (snd (EepromM24C.WriteBlock (transport := bus never_fails)
                              M24C16 1 0 0x00F0 16 (start (fun _ => 0)))))
               = [false; false])
    by (vm_compute; reflexivity).
  rewrite E in Ha. change (i2c (start (fun _ => 0)) ++ l) with l in Ha.
  rewrite Ha in Hans.
  destruct ks as [| k [| k' ks]]; try discriminate Hlen.
  inversion Hks as [| ? ? Hk _]; subst.
  assert (k = 0%nat) by lia. subst k.
  discriminate Hans.
Qed.

Section Returning.

Variable sc : Script.

(** Every check made right after the call that ends a transaction reports
    an error. *)
Hypothesis fails_after_every_attempt :
  forall h e, closes e = true -> err sc (h ++ [e]) = true.

Lemma closing_fails (tx : list event) :
  closing tx -> forall h, err sc (h ++ tx) = true.
Proof.
  intros (pre & e & -> & He & _) h.
  rewrite app_assoc. apply fails_after_every_attempt. exact He.
Qed.

Lemma WriteBlock_never_returns (model : EepromM24CModel) (fuel : nat)
    (data address data_size : Z) (w : world (list event)) :
  0 <= address < 65536 ->
  0 <= data_size < 65536 ->
  is_returned
    (fst (EepromM24C.WriteBlock (transport := bus sc) model fuel data address
            data_size w)) = false.
Proof.
  intros Ha Hs.
  pose proof (WriteBlock_trace sc model fuel data address data_size w Ha Hs) as T.
  pose proof (page_schedule_length model data address data_size) as L.
  destruct (page_schedule model data address data_size) as [| p ps];
    [discriminate L |].
  cbn [map] in T.
  apply (trace_seq_never_returns sc w _ _ _ _ T).
  apply closing_fails, closing_write_page.
Qed.

Lemma ChipErase_never_returns (model : EepromM24CModel) (fuel : nat)
    (w : world (list event)) :
  is_returned (fst (EepromM24C.ChipErase (transport := bus sc) model fuel w))
  = false.
Proof.
  pose proof (ChipErase_trace sc model fuel w) as T.
  assert (L : length (erase_offsets model) = 128%nat)
    by (destruct model; reflexivity).
  destruct (erase_offsets model) as [| o os]; [discriminate L |].
  cbn [map] in T.
  apply (trace_seq_never_returns sc w _ _ _ _ T).
  apply closing_fails, closing_erase_page.
Qed.

End Returning.

(** C8 (amended).  No operation has an error result: it returns its value
    or is still looping.  Each operation that is one transaction --
    WriteByte, WriteHalfWord, ReadByte, ReadHalfWord, ReadBlock, ErasePage
    -- is one retry loop: it returns at the first check after a
    transaction that answers [false], and not before.  WriteBlock and
    ChipErase go through one such loop per page, in order, and return
    when the last one is left.  When every check after a transaction
    reports an error no operation returns, whatever the budget.  A read
    that returns gives a value of its type. *)
Theorem operations_return_at_a_passing_check :
  forall (sc : Script) (model : EepromM24CModel) (fuel : nat)
         (address value data data_size : Z) (w : world (list event)),
    answers_of fuel 1 w
      (EepromM24C.WriteByte (transport := bus sc) fuel address value w)
    /\ answers_of fuel 1 w
         (EepromM24C.WriteHalfWord (transport := bus sc) fuel address value w)
    /\ answers_of fuel 1 w
         (EepromM24C.ReadByte (transport := bus sc) fuel address w)
    /\ answers_of fuel 1 w
         (EepromM24C.ReadHalfWord (transport := bus sc) fuel address w)
    /\ answers_of fuel 1 w
         (EepromM24C.ReadBlock (transport := bus sc) fuel data address data_size w)
    /\ answers_of fuel 1 w
         (EepromM24C.ErasePage (transport := bus sc) model fuel address w)
    /\ (0 <= address < 65536 -> 0 <= data_size < 65536 ->
        answers_of fuel (S (Z.to_nat (data_size / PAGE_SIZE model))) w
          (EepromM24C.WriteBlock (transport := bus sc) model fuel data address
             data_size w))
    /\ answers_of fuel (Z.to_nat (MEMORY_SIZE model / PAGE_SIZE model)) w
         (EepromM24C.ChipErase (transport := bus sc) model fuel w)
    /\ ((forall h e, closes e = true -> err sc (h ++ [e]) = true) ->
        is_returned
          (fst (EepromM24C.WriteByte (transport := bus sc) fuel address value w))
        = false
        /\ is_returned
             (fst (EepromM24C.WriteHalfWord (transport := bus sc) fuel address
                     value w)) = false
        /\ is_returned
             (fst (EepromM24C.ReadByte (transport := bus sc) fuel address w))
           = false
        /\ is_returned
             (fst (EepromM24C.ReadHalfWord (transport := bus sc) fuel address w))
           = false
        /\ is_returned
             (fst (EepromM24C.ReadBlock (transport := bus sc) fuel data address
                     data_size w)) = false
        /\ is_returned
             (fst (EepromM24C.ErasePage (transport := bus sc) model fuel address w))
           = false
        /\ (0 <= address < 65536 -> 0 <= data_size < 65536 ->
            is_returned
              (fst (EepromM24C.WriteBlock (transport := bus sc) model fuel data
                      address data_size w)) = false)
        /\ is_returned
             (fst (EepromM24C.ChipErase (transport := bus sc) model fuel w))
           = false)
    /\ (forall v w',
          EepromM24C.ReadByte (transport := bus sc) fuel address w
          = (Returned v, w') -> 0 <= v < 256)
    /\ (forall v w',
          EepromM24C.ReadHalfWord (transport := bus sc) fuel address w
          = (Returned v, w') -> 0 <= v < 65536).
Proof.
  intros sc model fuel address value data data_size w.
  split; [eapply trace_answers;
          [apply WriteByte_trace | apply closing_write_byte] |].
  split; [eapply trace_answers;
          [apply WriteHalfWord_trace | apply closing_write_halfword] |].
  split; [eapply trace_answers;
          [apply ReadByte_trace | apply closing_read_byte] |].
  split; [eapply trace_answers;
          [apply ReadHalfWord_trace | apply closing_read_halfword] |].
  split; [eapply trace_answers;
          [apply ReadBlock_trace | apply closing_read_block] |].
  split; [eapply trace_answers;
          [apply ErasePage_trace | apply closing_erase_page] |].
  split.
  { intros Ha Hs.
    rewrite <- (page_schedule_length model data address data_size).
    rewrite <- (length_map (page_transaction (ram w))).
    eapply trace_seq_answers; [apply WriteBlock_trace; assumption |].
    apply Forall_map_const. intros p. apply closing_write_page. }
  split.
  { rewrite <- Zrange_length.
    rewrite <- (length_map (fun k => k * PAGE_SIZE model)).
    change (map (fun k => k * PAGE_SIZE model)
              (Zrange (MEMORY_SIZE model / PAGE_SIZE model)))
      with (erase_offsets model).
    rewrite <- (length_map (Transaction.erase_page model)).
    eapply trace_seq_answers; [apply ChipErase_trace |].
    apply Forall_map_const. intros a. apply closing_erase_page. }
  split.
  { intros Hfail.
    split; [eapply trace_never_returns;
            [apply WriteByte_trace
            | apply closing_fails; [exact Hfail | apply closing_write_byte]] |].
    split; [eapply trace_never_returns;
            [apply WriteHalfWord_trace
            | apply closing_fails; [exact Hfail | apply closing_write_halfword]] |].
    split; [eapply trace_never_returns;
            [apply ReadByte_trace
            | apply closing_fails; [exact Hfail | apply closing_read_byte]] |].
    split; [eapply trace_never_returns;
            [apply ReadHalfWord_trace
            | apply closing_fails; [exact Hfail | apply closing_read_halfword]] |].
    split; [eapply trace_never_returns;
            [apply ReadBlock_trace
            | apply closing_fails; [exact Hfail | apply closing_read_block]] |].
    split; [eapply trace_never_returns;
            [apply ErasePage_trace
            | apply closing_fails; [exact Hfail | apply closing_erase_page]] |].
    split; [intros Ha Hs; apply WriteBlock_never_returns; assumption |].
    apply ChipErase_never_returns. exact Hfail. }
  split.
  - intros v w' H. apply ReadByte_value in H.
    destruct H as (h & _ & ->). apply uint8_range.
  - intros v w' H. apply ReadHalfWord_value in H.
    destruct H as (h & _ & ->). apply uint16_range.
Qed.

(** C8 (amended) on a transport that always fails: a byte write is still
    looping after three attempts. *)
Lemma operations_return_at_a_passing_check_witness :
  is_returned
    (fst (EepromM24C.WriteByte (transport := bus always_fails) 3 0x0134 0x56
            (start (fun _ => 0)))) = false.
Proof.
  destruct (operations_return_at_a_passing_check always_fails M24C16 3 0x0134
              0x56 0 0 (start (fun _ => 0)))
    as (_ & _ & _ & _ & _ & _ & _ & _ & H & _).
  apply H. intros h e _. reflexivity.
Defined.

(** * Addresses beyond the device *)

Section Congruence.

Context {Bus : Type} {transport : I2C_M24C Bus}.

Variables a b : Z.
Hypothesis congruent : a mod 2048 = b mod 2048.

Lemma select_code_congruent :
  EepromM24C.HandleDeviceSelectCode a = EepromM24C.HandleDeviceSelectCode b.
Proof.
  rewrite (select_code_mod_2048 a), (select_code_mod_2048 b), congruent.
  reflexivity.
Qed.

Lemma uint8_congruent : uint8 a = uint8 b.
Proof.
  rewrite (uint8_mod_2048 a), (uint8_mod_2048 b), congruent. reflexivity.
Qed.

Lemma WritePage_congruent (fuel : nat) (data data_size : Z) (w : world Bus) :
  EepromM24C.WritePage fuel data a data_size w
  = EepromM24C.WritePage fuel data b data_size w.
Proof.
  unfold EepromM24C.WritePage.
  rewrite select_code_congruent, uint8_congruent. reflexivity.
Qed.

End Congruence.

Lemma WriteBlock_loop_congruent {Bus : Type} {transport : I2C_M24C Bus}
    (model : EepromM24CModel) (fuel : nat) {A : Type} (k k' : Z * Z -> M Bus A) :
  (forall d x y w, x mod 2048 = y mod 2048 -> k (d, x) w = k' (d, y) w) ->
  forall (n : nat) (data a b : Z) (w : world Bus),
    a mod 2048 = b mod 2048 ->
    bind (EepromM24C.WriteBlock_loop model fuel n data a) k w
    = bind (EepromM24C.WriteBlock_loop model fuel n data b) k' w.
Proof.
  intros Hk.
  induction n as [| n IH]; intros data a b w Hab.
  - cbn [EepromM24C.WriteBlock_loop]. unfold bind, ret. apply Hk. exact Hab.
  - cbn [EepromM24C.WriteBlock_loop].
    rewrite !bind_assoc.
    etransitivity; [apply bind_cong_l, (WritePage_congruent a b Hab) |].
    apply bind_ext. intros _ w1.
    apply IH. apply uint16_step_mod_2048. exact Hab.
Qed.

(** 160 or-ed with an even number below 16 is their sum. *)
Lemma select_code_bits (address : Z) :
  EepromM24C.HandleDeviceSelectCode address
  = 160 + 2 * ((address / 256) mod 8).
Proof.
  rewrite select_code_unfold, land_mask_low, shiftr7_low4.
  assert (H : 0 <= address mod 2048 < 2048) by (apply Z.mod_pos_bound; lia).
  assert (E : (address / 256) mod 8 = (address mod 2048) / 256)
    by (Z.div_mod_to_equations; lia).
  rewrite E.
  assert (Hq : 0 <= address mod 2048 / 128 < 16)
    by (Z.div_mod_to_equations; lia).
  assert (Hh : address mod 2048 / 256 = address mod 2048 / 128 / 2)
    by (Z.div_mod_to_equations; lia).
  rewrite Hh.
  generalize dependent (address mod 2048 / 128). intros q Hq _.
  assert (C : q = 0 \/ q = 1 \/ q = 2 \/ q = 3 \/ q = 4 \/ q = 5 \/ q = 6
              \/ q = 7 \/ q = 8 \/ q = 9 \/ q = 10 \/ q = 11 \/ q = 12
              \/ q = 13 \/ q = 14 \/ q = 15) by lia.
  repeat (destruct C as [C | C]; [subst q; reflexivity |]).
  subst q; reflexivity.
Qed.

(** C9.  An address enters a transaction through the select code, which
    is 0xA0 plus twice the bits 8 to 10 of the address, and through the
    address byte, which is its bits 0 to 7.  Two addresses congruent
    modulo 2048 give the same select code and the same address byte, and
    every operation that takes an address does the same on both, on every
    transport. *)
Theorem addressing_depends_on_address_mod_2048 :
  forall (Bus : Type) (transport : I2C_M24C Bus) (model : EepromM24CModel)
         (fuel : nat) (a b value data data_size : Z) (w : world Bus),
    a mod 2048 = b mod 2048 ->
    EepromM24C.HandleDeviceSelectCode a = 160 + 2 * ((a / 256) mod 8)
    /\ uint8 a = a mod 256
    /\ EepromM24C.HandleDeviceSelectCode a = EepromM24C.HandleDeviceSelectCode b
    /\ uint8 a = uint8 b
    /\ EepromM24C.WriteByte fuel a value w = EepromM24C.WriteByte fuel b value w
    /\ EepromM24C.WriteHalfWord fuel a value w
       = EepromM24C.WriteHalfWord fuel b value w
    /\ EepromM24C.WritePage fuel data a data_size w
       = EepromM24C.WritePage fuel data b data_size w
    /\ EepromM24C.WriteBlock model fuel data a data_size w
       = EepromM24C.WriteBlock model fuel data b data_size w
    /\ EepromM24C.ReadByte fuel a w = EepromM24C.ReadByte fuel b w
    /\ EepromM24C.ReadHalfWord fuel a w = EepromM24C.ReadHalfWord fuel b w
    /\ EepromM24C.ReadBlock fuel data a data_size w
       = EepromM24C.ReadBlock fuel data b data_size w
    /\ EepromM24C.ErasePage model fuel a w = EepromM24C.ErasePage model fuel b w.
Proof.
  intros Bus transport model fuel a b value data data_size w Hab.
  pose proof (select_code_congruent a b Hab) as Hs.
  pose proof (uint8_congruent a b Hab) as Hu.
  split; [apply select_code_bits |].
  split; [reflexivity |].
  split; [exact Hs |].
  split; [exact Hu |].
  split; [unfold EepromM24C.WriteByte; rewrite Hs, Hu; reflexivity |].
  split; [unfold EepromM24C.WriteHalfWord; rewrite Hs, Hu; reflexivity |].
  split; [apply WritePage_congruent; exact Hab |].
  split.
  { unfold EepromM24C.WriteBlock.
    apply WriteBlock_loop_congruent; [| exact Hab].
    intros d x y w' Hxy. cbn [fst snd].
    apply WritePage_congruent. exact Hxy. }
  split; [unfold EepromM24C.ReadByte; rewrite Hs, Hu; reflexivity |].
  split; [unfold EepromM24C.ReadHalfWord; rewrite Hs, Hu; reflexivity |].
  split; [unfold EepromM24C.ReadBlock; rewrite Hs, Hu; reflexivity |].
  unfold EepromM24C.ErasePage; rewrite Hs, Hu; reflexivity.
Qed.

(** C9 at 0x0134 and the out-of-range 0x0934 = 0x0134 + 2048. *)
Lemma addressing_depends_on_address_mod_2048_witness :
  EepromM24C.HandleDeviceSelectCode 0x0134 = EepromM24C.HandleDeviceSelectCode 0x0934
  /\ uint8 0x0134 = uint8 0x0934.
Proof.
  destruct (addressing_depends_on_address_mod_2048 (list event) (bus never_fails)
              M24C16 1 0x0134 0x0934 0 0 0 (start (fun _ => 0)) eq_refl)
    as (_ & _ & Hs & Hu & _).
  split; [exact Hs | exact Hu].
Defined.

(** * The flag of the start condition *)

Section PosBit.

Variable sc : Script.

(** A run with a budget makes its first attempt in full. *)
Lemma retry_policy_first_attempt (tx : list event) (n : nat) (h : list event) :
  exists l, snd (retry_policy sc tx (S n) h) = h ++ check_init sc h ++ tx ++ l.
Proof.
  assert (HT : Forall (fun _ : event => True) tx)
    by (apply Forall_forall; intros; exact I).
  cbn [retry_policy].
  destruct (err sc (h ++ check_init sc h ++ tx)).
  - destruct (retry_policy_calls sc (fun _ => True) tx (fun _ => I) I HT n
                ((h ++ check_init sc h ++ tx) ++ [IsStateError_ev true]))
      as (l & E & _).
    exists (IsStateError_ev true :: l).
    rewrite E, <- !app_assoc. reflexivity.
  - exists [IsStateError_ev false]. cbn [snd].
    rewrite <- !app_assoc. reflexivity.
Qed.

Lemma WriteByte_pos_bit (fuel : nat) (address value : Z) (w : world (list event)) :
  adds pos_bit_clear w
    (EepromM24C.WriteByte (transport := bus sc) fuel address value w).
Proof.
  apply (trace_adds sc w _ _ (Transaction.write_byte address value) fuel);
    [apply WriteByte_trace | intros; exact I | exact I |].
  repeat constructor.
Qed.

Lemma WriteHalfWord_pos_bit (fuel : nat) (address value : Z)
    (w : world (list event)) :
  adds pos_bit_clear w
    (EepromM24C.WriteHalfWord (transport := bus sc) fuel address value w).
Proof.
  apply (trace_adds sc w _ _ (Transaction.write_halfword address value) fuel);
    [apply WriteHalfWord_trace | intros; exact I | exact I |].
  repeat constructor.
Qed.

Lemma ReadByte_pos_bit (fuel : nat) (address : Z) (w : world (list event)) :
  adds pos_bit_clear w (EepromM24C.ReadByte (transport := bus sc) fuel address w).
Proof.
  apply (trace_adds sc w _ _ (Transaction.read_byte address) fuel);
    [apply ReadByte_trace | intros; exact I | exact I |].
  repeat constructor.
Qed.

Lemma ReadBlock_pos_bit (fuel : nat) (data address data_size : Z)
    (w : world (list event)) :
  adds pos_bit_clear w
    (EepromM24C.ReadBlock (transport := bus sc) fuel data address data_size w).
Proof.
  apply (trace_adds sc w _ _ (Transaction.read_block data address data_size) fuel);
    [apply ReadBlock_trace | intros; exact I | exact I |].
  repeat constructor.
Qed.

Lemma ErasePage_pos_bit (model : EepromM24CModel) (fuel : nat) (address : Z)
    (w : world (list event)) :
  adds pos_bit_clear w
    (EepromM24C.ErasePage (transport := bus sc) model fuel address w).
Proof.
  apply (trace_adds sc w _ _ (Transaction.erase_page model address) fuel);
    [apply ErasePage_trace | intros; exact I | exact I |].
  apply Forall_erase_page; try reflexivity; intros; exact I.
Qed.

Lemma WritePage_pos_bit (fuel : nat) (data address data_size : Z)
    (w : world (list event)) :
  0 <= data_size < 256 ->
  adds pos_bit_clear w
    (EepromM24C.WritePage (transport := bus sc) fuel data address data_size w).
Proof.
  intros Hs.
  apply (trace_adds sc w _ _
           (Transaction.write_page (ram w) data address data_size) fuel);
    [apply WritePage_trace; exact Hs | intros; exact I | exact I |].
  apply Forall_write_page; try reflexivity; intros; exact I.
Qed.

Lemma WriteBlock_pos_bit (model : EepromM24CModel) (fuel : nat)
    (data address data_size : Z) (w : world (list event)) :
  0 <= address < 65536 ->
  0 <= data_size < 65536 ->
  adds pos_bit_clear w
    (EepromM24C.WriteBlock (transport := bus sc) model fuel data address
       data_size w).
Proof.
  intros Ha Hs.
  eapply trace_seq_adds;
    [apply WriteBlock_trace; assumption | intros; exact I | exact I |].
  apply Forall_map_const. intros p.
  apply Forall_write_page; try reflexivity; intros; exact I.
Qed.

Lemma ChipErase_pos_bit (model : EepromM24CModel) (fuel : nat)
    (w : world (list event)) :
  adds pos_bit_clear w (EepromM24C.ChipErase (transport := bus sc) model fuel w).
Proof.
  eapply trace_seq_adds;
    [apply ChipErase_trace | intros; exact I | exact I |].
  apply Forall_map_const. intros a.
  apply Forall_erase_page; try reflexivity; intros; exact I.
Qed.

Lemma ReadHalfWord_pos_bit (fuel : nat) (address : Z) (w : world (list event)) :
  adds pos_bit_on_tx_only w
    (EepromM24C.ReadHalfWord (transport := bus sc) fuel address w).
Proof.
  apply (trace_adds sc w _ _ (Transaction.read_halfword address) fuel);
    [apply ReadHalfWord_trace | intros; exact I | exact I |].
  repeat constructor.
Qed.

Lemma ReadHalfWord_sets_pos_bit (fuel : nat) (address : Z)
    (w : world (list event)) :
  exists l,
    i2c (snd (EepromM24C.ReadHalfWord (transport := bus sc) (S fuel) address w))
    = i2c w ++ l
    /\ In (StartPolling_ev (EepromM24C.HandleDeviceSelectCode address) TX true) l
    /\ In (StartPolling_ev (EepromM24C.HandleDeviceSelectCode address) RX false) l.
Proof.
  destruct (retry_policy_first_attempt (Transaction.read_halfword address) fuel
              (i2c w)) as (l & E).
  rewrite <- (proj1 (ReadHalfWord_trace sc (S fuel) address w)) in E.
  exists (check_init sc (i2c w) ++ Transaction.read_halfword address ++ l).
  split; [exact E |].
  split; apply in_or_app; right; apply in_or_app; left; cbn; tauto.
Qed.

End PosBit.

(** C10.  In every call of every operation other than [ReadHalfWord] the
    flag [set_pos_bit] of a start condition is [false].  In [ReadHalfWord]
    it is [true] on the start conditions in transmit mode and [false] on
    those in receive mode, and a [ReadHalfWord] that makes an attempt
    makes both. *)
Theorem pos_bit_is_set_by_ReadHalfWord_only :
  forall (sc : Script) (model : EepromM24CModel) (fuel : nat)
         (address value data data_size : Z) (w : world (list event)),
    adds pos_bit_clear w
      (EepromM24C.WriteByte (transport := bus sc) fuel address value w)
    /\ adds pos_bit_clear w
         (EepromM24C.WriteHalfWord (transport := bus sc) fuel address value w)
    /\ adds pos_bit_clear w
         (EepromM24C.ReadByte (transport := bus sc) fuel address w)
    /\ adds pos_bit_clear w
         (EepromM24C.ReadBlock (transport := bus sc) fuel data address data_size w)
    /\ adds pos_bit_clear w
         (EepromM24C.ErasePage (transport := bus sc) model fuel address w)
    /\ adds pos_bit_clear w
         (EepromM24C.ChipErase (transport := bus sc) model fuel w)
    /\ (0 <= data_size < 256 ->
        adds pos_bit_clear w
          (EepromM24C.WritePage (transport := bus sc) fuel data address
             data_size w))
    /\ (0 <= address < 65536 -> 0 <= data_size < 65536 ->
        adds pos_bit_clear w
          (EepromM24C.WriteBlock (transport := bus sc) model fuel data address
             data_size w))
    /\ adds pos_bit_on_tx_only w
         (EepromM24C.ReadHalfWord (transport := bus sc) fuel address w)
    /\ exists l,
         i2c (snd (EepromM24C.ReadHalfWord (transport := bus sc) (S fuel)
                     address w))
         = i2c w ++ l
         /\ In (StartPolling_ev (EepromM24C.HandleDeviceSelectCode address)
                  TX true) l
         /\ In (StartPolling_ev (EepromM24C.HandleDeviceSelectCode address)
                  RX false) l.
Proof.
  intros sc model fuel address value data data_size w.
  split; [apply WriteByte_pos_bit |].
  split; [apply WriteHalfWord_pos_bit |].
  split; [apply ReadByte_pos_bit |].
  split; [apply ReadBlock_pos_bit |].
  split; [apply ErasePage_pos_bit |].
  split; [apply ChipErase_pos_bit |].
  split; [apply WritePage_pos_bit |].
  split; [apply WriteBlock_pos_bit |].
  split; [apply ReadHalfWord_pos_bit | apply ReadHalfWord_sets_pos_bit].
Qed.

(** C10 at a block write of 33 bytes. *)
Lemma pos_bit_is_set_by_ReadHalfWord_only_witness :
  adds pos_bit_clear (start (fun _ => 0))
    (EepromM24C.WriteBlock (transport := bus never_fails) M24C16 1 0 0 33
       (start (fun _ => 0))).
Proof.
  destruct (pos_bit_is_set_by_ReadHalfWord_only never_fails M24C16 1 0 0 0 33
              (start (fun _ => 0)))
    as (_ & _ & _ & _ & _ & _ & _ & H & _).
  apply H; lia.
Defined.

(** * Further properties of the driver *)

(** ** The select code and the address byte as an encoding *)

(** X1.  Whatever the address, the device-select code lies between 0xA0
    and 0xAE, its high nibble is the device type 0b1010 and its bit 0, the
    read/write bit of the bus, is clear: the driver leaves the direction to
    the transport. *)
Theorem select_code_shape :
  forall address : Z,
    0xA0 <= EepromM24C.HandleDeviceSelectCode address <= 0xAE
    /\ EepromM24C.HandleDeviceSelectCode address / 16 = 0xA
    /\ Z.testbit (EepromM24C.HandleDeviceSelectCode address) 0 = false
    /\ Z.land (EepromM24C.HandleDeviceSelectCode address) 0xF1 = 0xA0.
Proof.
  intros address.
  rewrite select_code_bits.
  assert (H : 0 <= (address / 256) mod 8 < 8) by (apply Z.mod_pos_bound; lia).
  generalize dependent ((address / 256) mod 8). intros m H.
  assert (C : m = 0 \/ m = 1 \/ m = 2 \/ m = 3 \/ m = 4 \/ m = 5 \/ m = 6
              \/ m = 7) by lia.
  repeat (destruct C as [C | C]; [subst m; cbn; repeat split; lia |]).
  subst m; cbn; repeat split; lia.
Qed.

(** The device address is read back from the select code and the address
    byte. *)
Lemma address_decoded (a : Z) :
  a mod 2048
  = 256 * ((EepromM24C.HandleDeviceSelectCode a - 160) / 2) + uint8 a.
Proof.
  rewrite select_code_bits. unfold uint8.
  replace (160 + 2 * ((a / 256) mod 8) - 160) with (((a / 256) mod 8) * 2) by lia.
  rewrite Z.div_mul by lia.
  Z.div_mod_to_equations. lia.
Qed.

Lemma Zseq_NoDup (len : nat) (i : Z) : NoDup (Zseq i len).
Proof.
  revert i. induction len as [| len IH]; intros i; cbn [Zseq]; constructor.
  - rewrite Zseq_In. lia.
  - apply IH.
Qed.

Lemma erase_offsets_NoDup (model : EepromM24CModel) : NoDup (erase_offsets model).
Proof.
  unfold erase_offsets.
  apply NoDup_map_NoDup_ForallPairs; [| apply Zseq_NoDup].
  intros x y _ _ E. destruct model; cbn [PAGE_SIZE] in E. lia.
Qed.

(** X2.  The select code and the address byte together determine the
    address modulo 2048: two addresses of the device that are sent the same
    way are the same address, so no two bytes of the M24C16 alias, and the
    page offsets of a chip erase are addressed in 128 different ways. *)
Theorem addressing_is_injective :
  forall a b : Z,
    EepromM24C.HandleDeviceSelectCode a = EepromM24C.HandleDeviceSelectCode b ->
    uint8 a = uint8 b ->
    a mod 2048 = b mod 2048
    /\ a mod 2048
       = 256 * ((EepromM24C.HandleDeviceSelectCode a - 160) / 2) + uint8 a
    /\ (0 <= a < MEMORY_SIZE M24C16 -> 0 <= b < MEMORY_SIZE M24C16 -> a = b)
    /\ NoDup (map (fun o => (EepromM24C.HandleDeviceSelectCode o, uint8 o))
                  (erase_offsets M24C16)).
Proof.
  intros a b Hs Hu.
  assert (Hm : a mod 2048 = b mod 2048)
    by (rewrite (address_decoded a), (address_decoded b), Hs, Hu; reflexivity).
  split; [exact Hm |].
  split; [apply address_decoded |].
  split.
  - cbn [MEMORY_SIZE]. intros Ha Hb.
    rewrite !Z.mod_small in Hm by assumption. exact Hm.
  - apply NoDup_map_NoDup_ForallPairs; [| apply erase_offsets_NoDup].
    intros x y Hx Hy E.
    apply erase_offsets_spec in Hx, Hy. cbn [MEMORY_SIZE] in Hx, Hy.
    injection E as Es Eu.
    rewrite <- (Z.mod_small x 2048), <- (Z.mod_small y 2048) by lia.
    rewrite (address_decoded x), (address_decoded y), Es, Eu. reflexivity.
Qed.

(** X2 at 0x0134 and 0x0934, which are sent the same way. *)
Lemma addressing_is_injective_witness :
  0x0134 mod 2048 = 0x0934 mod 2048.
Proof.
  apply (addressing_is_injective 0x0134 0x0934); reflexivity.
Defined.

(** ** A transport that does not fail *)

Section Healthy.

Variable sc : Script.
Hypothesis sc_healthy : healthy sc.

Lemma healthy_once (tx : list event) (n : nat) (h : list event) :
  closing tx ->
  retry_policy sc tx (S n) h
  = (true, h ++ check_init sc h ++ tx ++ [IsStateError_ev false]).
Proof.
  intros (pre & e & -> & He & _).
  cbn [retry_policy].
  replace (h ++ check_init sc h ++ pre ++ [e])
    with ((h ++ check_init sc h ++ pre) ++ [e])
    by (rewrite <- !app_assoc; reflexivity).
  rewrite sc_healthy by exact He.
  rewrite <- !app_assoc. reflexivity.
Qed.

Lemma healthy_each_once (txs : list (list event)) :
  Forall closing txs ->
  forall (n : nat) (h : list event),
    exists l, retry_policy_seq sc txs (S n) h = (true, h ++ l)
              /\ one_attempt_each txs l.
Proof.
  induction 1 as [| tx txs Htx _ IH]; intros n h; cbn [retry_policy_seq].
  - exists []. rewrite app_nil_r. split; [reflexivity | constructor].
  - rewrite healthy_once by exact Htx.
    destruct (IH n (h ++ check_init sc h ++ tx ++ [IsStateError_ev false]))
      as (l & E & Hl).
    exists (check_init sc h ++ tx ++ IsStateError_ev false :: l).
    split.
    + rewrite E, <- !app_assoc. reflexivity.
    + unfold check_init. cbn [app]. constructor. exact Hl.
Qed.

End Healthy.

Lemma one_attempt_each_answers (txs : list (list event)) (l : list event) :
  Forall closing txs ->
  one_attempt_each txs l ->
  end_answers l = repeat false (length txs).
Proof.
  intros Hc H. induction H as [| tx txs b l H IH].
  - reflexivity.
  - inversion Hc as [| ? ? Htx Htxs]; subst.
    destruct Htx as (pre & e & -> & He & Hpre).
    cbn [length repeat]. rewrite <- IH by exact Htxs.
    rewrite end_answers_open by reflexivity.
    assert (Hi : end_answers ((if b then [Init_ev] else [])
                              ++ (pre ++ [e]) ++ IsStateError_ev false :: l)
                 = end_answers ((pre ++ [e]) ++ IsStateError_ev false :: l)).
    { destruct b; cbn [app]; [apply end_answers_open |]; reflexivity. }
    rewrite Hi, <- app_assoc. cbn [app].
    rewrite end_answers_open_app by exact Hpre.
    apply end_answers_close. exact He.
Qed.

Lemma never_fails_healthy : healthy never_fails.
Proof. intros h e _. reflexivity. Qed.

(** X3.  On a transport that reports no error after a transaction, every
    operation returns within any budget of at least one attempt, having
    made each of its transactions once: one for the byte, halfword and
    block reads and writes and for a page erase, one per page of the
    schedule for a block write, one per page of the device for a chip
    erase. *)
Theorem healthy_transport_needs_one_attempt :
  forall (sc : Script) (model : EepromM24CModel) (fuel : nat)
         (address value data data_size : Z) (w : world (list event)),
    healthy sc ->
    trace (EepromM24C.WriteByte (transport := bus sc) (S fuel) address value w)
    = (true, i2c w ++ check_init sc (i2c w)
             ++ Transaction.write_byte address value
             ++ [IsStateError_ev false])
    /\ trace (EepromM24C.WriteHalfWord (transport := bus sc) (S fuel) address
                value w)
       = (true, i2c w ++ check_init sc (i2c w)
                ++ Transaction.write_halfword address value
                ++ [IsStateError_ev false])
    /\ trace (EepromM24C.ReadByte (transport := bus sc) (S fuel) address w)
       = (true, i2c w ++ check_init sc (i2c w)
                ++ Transaction.read_byte address
                ++ [IsStateError_ev false])
    /\ trace (EepromM24C.ReadHalfWord (transport := bus sc) (S fuel) address w)
       = (true, i2c w ++ check_init sc (i2c w)
                ++ Transaction.read_halfword address
                ++ [IsStateError_ev false])
    /\ trace (EepromM24C.ReadBlock (transport := bus sc) (S fuel) data address
                data_size w)
       = (true, i2c w ++ check_init sc (i2c w)
                ++ Transaction.read_block data address data_size
                ++ [IsStateError_ev false])
    /\ trace (EepromM24C.ErasePage (transport := bus sc) model (S fuel) address w)
       = (true, i2c w ++ check_init sc (i2c w)
                ++ Transaction.erase_page model address
                ++ [IsStateError_ev false])
    /\ (0 <= address < 65536 -> 0 <= data_size < 65536 ->
        exists l,
          trace (EepromM24C.WriteBlock (transport := bus sc) model (S fuel) data
                   address data_size w)
          = (true, i2c w ++ l)
          /\ one_attempt_each
               (map (page_transaction (ram w))
                    (page_schedule model data address data_size)) l
          /\ end_answers l
             = repeat false (S (Z.to_nat (data_size / PAGE_SIZE model))))
    /\ exists l,
         trace (EepromM24C.ChipErase (transport := bus sc) model (S fuel) w)
         = (true, i2c w ++ l)
         /\ one_attempt_each
              (map (Transaction.erase_page model) (erase_offsets model)) l
         /\ end_answers l = repeat false 128.
Proof.
  intros sc model fuel address value data data_size w Hsc.
  split; [rewrite (proj1 (WriteByte_trace sc _ _ _ _));
          apply healthy_once; [exact Hsc | apply closing_write_byte] |].
  split; [rewrite (proj1 (WriteHalfWord_trace sc _ _ _ _));
          apply healthy_once; [exact Hsc | apply closing_write_halfword] |].
  split; [rewrite (proj1 (ReadByte_trace sc _ _ _));
          apply healthy_once; [exact Hsc | apply closing_read_byte] |].
  split; [rewrite (proj1 (ReadHalfWord_trace sc _ _ _));
          apply healthy_once; [exact Hsc | apply closing_read_halfword] |].
  split; [rewrite ReadBlock_trace;
          apply healthy_once; [exact Hsc | apply closing_read_block] |].
  split; [rewrite (proj1 (ErasePage_trace sc _ _ _ _));
          apply healthy_once; [exact Hsc | apply closing_erase_page] |].
  split.
  - intros Ha Hs.
    assert (Hc : Forall closing (map (page_transaction (ram w))
                                     (page_schedule model data address data_size)))
      by (apply Forall_map_const; intros p; apply closing_write_page).
    destruct (healthy_each_once sc Hsc _ Hc fuel (i2c w)) as (l & E & Hl).
    exists l. rewrite WriteBlock_trace by assumption.
    split; [exact E |]. split; [exact Hl |].
    rewrite (one_attempt_each_answers _ _ Hc Hl).
    rewrite length_map, page_schedule_length. reflexivity.
  - assert (Hc : Forall closing (map (Transaction.erase_page model)
                                     (erase_offsets model)))
      by (apply Forall_map_const; intros a; apply closing_erase_page).
    destruct (healthy_each_once sc Hsc _ Hc fuel (i2c w)) as (l & E & Hl).
    exists l. rewrite ChipErase_trace.
    split; [exact E |]. split; [exact Hl |].
    rewrite (one_attempt_each_answers _ _ Hc Hl).
    rewrite length_map. destruct model. reflexivity.
Qed.

(** X3 on the transport that never reports an error. *)
Lemma healthy_transport_needs_one_attempt_witness :
  trace (EepromM24C.WriteByte (transport := bus never_fails) 1 0x0134 0x56
           (start (fun _ => 0)))
  = (true,
     [IsStateError_ev false;
      StartPolling_ev 0xA2 TX false; WriteByte_ev 0x34; WriteByte_ev 0x56;
      Stop_ev;
      IsStateError_ev false]).
Proof.
  apply (healthy_transport_needs_one_attempt never_fails M24C16 0 0x0134 0x56
           0 0 (start (fun _ => 0)) never_fails_healthy).
Defined.

(** ** The data of a block write *)

Lemma data_bytes_data (bs : list Z) (rest : list event) :
  data_bytes Data (map WriteByte_ev bs ++ rest) = bs ++ data_bytes Data rest.
Proof.
  induction bs as [| b bs IH]; cbn [map app data_bytes].
  - reflexivity.
  - rewrite IH. reflexivity.
Qed.

Lemma data_bytes_write_transaction (ph : phase) (c a : Z) (bs : list Z)
    (rest : list event) :
  data_bytes ph (write_transaction c a bs ++ rest)
  = bs ++ data_bytes Outside rest.
Proof.
  unfold write_transaction. rewrite <- !app_assoc.
  cbn [app data_bytes]. destruct ph; rewrite data_bytes_data; reflexivity.
Qed.

Lemma one_attempt_each_data (ts : list (Z * Z * list Z)) :
  forall l,
    one_attempt_each
      (map (fun t => write_transaction (fst (fst t)) (snd (fst t)) (snd t)) ts) l ->
    data_bytes Outside l = concat (map snd ts).
Proof.
  induction ts as [| [[c a] bs] ts IH]; intros l H; cbn [map] in H;
    inversion H; subst.
  - reflexivity.
  - cbn [map concat fst snd data_bytes].
    match goal with
    | |- data_bytes Outside ((if ?b then _ else _) ++ _) = _ =>
        destruct b; cbn [app data_bytes]
    end;
      rewrite data_bytes_write_transaction; cbn [data_bytes];
      f_equal; apply IH; assumption.
Qed.

Lemma page_transaction_write (r : Z -> Z) (p : Z * Z * Z) :
  page_transaction r p
  = write_transaction (EepromM24C.HandleDeviceSelectCode (snd (fst p)))
      (uint8 (snd (fst p)))
      (map (fun i => r (fst (fst p) + i)) (Zrange (snd p))).
Proof.
  unfold page_transaction, Transaction.write_page, write_transaction.
  rewrite map_map. reflexivity.
Qed.

Lemma Zseq_app (i : Z) (m n : nat) :
  Zseq i (m + n) = Zseq i m ++ Zseq (i + Z.of_nat m) n.
Proof.
  revert i. induction m as [| m IH]; intros i.
  - cbn. rewrite Z.add_0_r. reflexivity.
  - cbn [Nat.add Zseq app]. rewrite IH.
    replace (i + 1 + Z.of_nat m) with (i + Z.of_nat (S m)) by lia.
    reflexivity.
Qed.

Lemma Zseq_shift {X : Type} (f : Z -> X) (c : Z) (len : nat) (i : Z) :
  map (fun j => f (c + j)) (Zseq i len) = map f (Zseq (c + i) len).
Proof.
  revert i. induction len as [| len IH]; intros i; cbn [Zseq map].
  - reflexivity.
  - rewrite IH. replace (c + (i + 1)) with (c + i + 1) by lia. reflexivity.
Qed.

(** The bytes of [q] full pages of [ps] bytes from page [i] on are the
    [q * ps] bytes from offset [i * ps] on. *)
Lemma full_pages_bytes {X : Type} (g : Z -> X) (ps : nat) (q : nat) (i : Z) :
  concat (map (fun k => map g (Zseq (k * Z.of_nat ps) ps)) (Zseq i q))
  = map g (Zseq (i * Z.of_nat ps) (q * ps)).
Proof.
  revert i. induction q as [| q IH]; intros i; cbn [Zseq map concat Nat.mul].
  - reflexivity.
  - rewrite IH, Zseq_app, map_app.
    replace ((i + 1) * Z.of_nat ps) with (i * Z.of_nat ps + Z.of_nat ps) by lia.
    reflexivity.
Qed.

Lemma page_schedule_bytes (model : EepromM24CModel) (r : Z -> Z)
    (data address data_size : Z) :
  0 <= data_size ->
  concat (map (fun p => map (fun i => r (fst (fst p) + i)) (Zrange (snd p)))
              (page_schedule model data address data_size))
  = map (fun j => r (data + j)) (Zrange data_size).
Proof.
  intros Hs.
  assert (Hp : PAGE_SIZE model = 16) by (destruct model; reflexivity).
  unfold page_schedule. rewrite Hp.
  rewrite map_app, concat_app, map_map. cbn [map concat fst snd].
  rewrite app_nil_r.
  rewrite (map_ext _ (fun k => map (fun j => r (data + j))
                                   (Zseq (k * Z.of_nat 16) 16))).
  - unfold Zrange. rewrite full_pages_bytes.
    rewrite (map_ext (fun i => r (data + data_size / 16 * 16 + i))
               (fun i => r (data + (data_size / 16 * 16 + i))))
      by (intros i; rewrite Z.add_assoc; reflexivity).
    rewrite (Zseq_shift (fun j => r (data + j)) (data_size / 16 * 16)).
    rewrite <- map_app.
    replace (Z.to_nat data_size)
      with (Z.to_nat (data_size / 16) * 16 + Z.to_nat (data_size mod 16))%nat
      by (Z.div_mod_to_equations; lia).
    rewrite Zseq_app.
    replace (0 * Z.of_nat 16) with 0 by lia.
    replace (0 + Z.of_nat (Z.to_nat (data_size / 16) * 16))
      with (data_size / 16 * 16 + 0)
      by (Z.div_mod_to_equations; lia).
    reflexivity.
  - intros k. unfold Zrange. change (Z.to_nat 16) with 16%nat.
    rewrite (map_ext (fun i => r (data + k * 16 + i))
               (fun i => r (data + (k * 16 + i))))
      by (intros i; rewrite Z.add_assoc; reflexivity).
    rewrite (Zseq_shift (fun j => r (data + j)) (k * 16)).
    replace (k * 16 + 0) with (k * Z.of_nat 16) by lia.
    reflexivity.
Qed.

(** X4.  On a transport that reports no error after a transaction, a block
    write returns having sent, as the data bytes of its transactions taken
    in order, the [data_size] bytes of the buffer from [data] on, each one
    once -- and nothing else; the buffer is left as it was. *)
Theorem WriteBlock_sends_the_buffer :
  forall (sc : Script) (model : EepromM24CModel) (fuel : nat)
         (data address data_size : Z) (w : world (list event)),
    healthy sc ->
    0 <= address < 65536 ->
    0 <= data_size < 65536 ->
    exists l,
      trace (EepromM24C.WriteBlock (transport := bus sc) model (S fuel) data
               address data_size w)
      = (true, i2c w ++ l)
      /\ data_bytes Outside l
         = map (fun j => ram w (data + j)) (Zrange data_size)
      /\ length (data_bytes Outside l) = Z.to_nat data_size
      /\ ram (snd (EepromM24C.WriteBlock (transport := bus sc) model (S fuel)
                     data address data_size w))
         = ram w.
Proof.
  intros sc model fuel data address data_size w Hsc Ha Hs.
  pose (triple := fun p : Z * Z * Z =>
                    (EepromM24C.HandleDeviceSelectCode (snd (fst p)),
                     uint8 (snd (fst p)),
                     map (fun i => ram w (fst (fst p) + i)) (Zrange (snd p)))).
  assert (Htx : map (page_transaction (ram w))
                    (page_schedule model data address data_size)
                = map (fun t => write_transaction (fst (fst t)) (snd (fst t))
                                  (snd t))
                      (map triple (page_schedule model data address data_size))).
  { rewrite map_map. apply map_ext. intros p. apply page_transaction_write. }
  assert (Hc : Forall closing (map (page_transaction (ram w))
                                   (page_schedule model data address data_size)))
    by (apply Forall_map_const; intros p; apply closing_write_page).
  destruct (healthy_each_once sc Hsc _ Hc fuel (i2c w)) as (l & E & Hl).
  assert (Hd : data_bytes Outside l
               = map (fun j => ram w (data + j)) (Zrange data_size)).
  { rewrite Htx in Hl. rewrite (one_attempt_each_data _ _ Hl).
    rewrite map_map. cbn [triple snd].
    apply page_schedule_bytes. lia. }
  exists l. rewrite WriteBlock_trace by assumption.
  split; [exact E |]. split; [exact Hd |]. split.
  - rewrite Hd, length_map. apply Zrange_length.
  - rewrite WriteBlock_pages by assumption.
    apply write_pages_trace, page_schedule_sizes.
Qed.

(** X4 at three bytes from address 0x0100. *)
Lemma WriteBlock_sends_the_buffer_witness :
  exists l,
    trace (EepromM24C.WriteBlock (transport := bus never_fails) M24C16 1 7
             0x0100 3 (start (fun p => p)))
    = (true, i2c (start (fun p => p)) ++ l)
    /\ data_bytes Outside l = map (fun j => 7 + j) (Zrange 3)
    /\ length (data_bytes Outside l) = Z.to_nat 3
    /\ ram (snd (EepromM24C.WriteBlock (transport := bus never_fails) M24C16 1 7
                   0x0100 3 (start (fun p => p))))
       = (fun p => p).
Proof.
  apply (WriteBlock_sends_the_buffer never_fails M24C16 0 7 0x0100 3
           (start (fun p => p)) never_fails_healthy); lia.
Defined.

(** ** Page boundaries *)

(** X5.  The page writes of a block write that starts on a page boundary
    all start on a page boundary and stay inside their page.  When the
    start is not on a page boundary and the block holds a full page, the
    first page write runs over the end of its page: the driver does not
    realign it. *)
Theorem WriteBlock_page_boundaries :
  forall (Bus : Type) (transport : I2C_M24C Bus) (model : EepromM24CModel)
         (fuel : nat) (data address data_size : Z) (w : world Bus),
    0 <= address < 65536 ->
    0 <= data_size < 65536 ->
    EepromM24C.WriteBlock model fuel data address data_size w
    = write_pages fuel (page_schedule model data address data_size) w
    /\ (address mod PAGE_SIZE model = 0 ->
        Forall (fun p => snd (fst p) mod PAGE_SIZE model = 0
                         /\ 0 <= snd p
                         /\ snd (fst p) mod PAGE_SIZE model + snd p
                            <= PAGE_SIZE model)
               (page_schedule model data address data_size))
    /\ (address mod PAGE_SIZE model <> 0 ->
        PAGE_SIZE model <= data_size ->
        hd_error (page_schedule model data address data_size)
        = Some (data, address, PAGE_SIZE model)
        /\ PAGE_SIZE model < address mod PAGE_SIZE model + PAGE_SIZE model).
Proof.
  intros Bus transport model fuel data address data_size w Ha Hs.
  assert (Hp : PAGE_SIZE model = 16) by (destruct model; reflexivity).
  split; [apply WriteBlock_pages; assumption |].
  split.
  - intros Hal. unfold page_schedule. apply Forall_app. split.
    + apply Forall_forall. intros p Hin.
      apply in_map_iff in Hin. destruct Hin as (k & <- & Hk).
      apply Zrange_In in Hk. cbn [fst snd]. unfold uint16.
      rewrite Hp in *. repeat split; Z.div_mod_to_equations; lia.
    + constructor; [| constructor]. cbn [fst snd]. unfold uint16.
      rewrite Hp in *. repeat split; Z.div_mod_to_equations; lia.
  - intros Hal Hfull. split.
    + unfold page_schedule, Zrange.
      destruct (Z.to_nat (data_size / PAGE_SIZE model)) as [| q] eqn:Eq.
      * exfalso. rewrite Hp in *. Z.div_mod_to_equations. lia.
      * cbn [Zseq map app hd_error].
        rewrite Z.mul_0_l, !Z.add_0_r, uint16_small by exact Ha. reflexivity.
    + pose proof (Z.mod_pos_bound address (PAGE_SIZE model)). lia.
Qed.

(** X5 at a block of two pages from the page boundary 0x0100. *)
Lemma WriteBlock_page_boundaries_witness :
  Forall (fun p => snd (fst p) mod PAGE_SIZE M24C16 = 0
                   /\ 0 <= snd p
                   /\ snd (fst p) mod PAGE_SIZE M24C16 + snd p
                      <= PAGE_SIZE M24C16)
         (page_schedule M24C16 0 0x0100 32).
Proof.
  apply (WriteBlock_page_boundaries (list event) (bus never_fails) M24C16 1 0
           0x0100 32 (start (fun _ => 0))); [lia | lia | reflexivity].
Defined.

(** X6.  A block shorter than a page is one page write at the address
    given, whether or not it is on a page boundary; an empty block is
    still one transaction, with no data byte. *)
Theorem WriteBlock_shorter_than_a_page :
  forall (Bus : Type) (transport : I2C_M24C Bus) (model : EepromM24CModel)
         (fuel : nat) (data address data_size : Z) (w : world Bus),
    0 <= data_size < PAGE_SIZE model ->
    EepromM24C.WriteBlock model fuel data address data_size w
    = EepromM24C.WritePage fuel data address data_size w.
Proof.
  intros Bus transport model fuel data address data_size w Hs.
  assert (Hp : PAGE_SIZE model = 16) by (destruct model; reflexivity).
  unfold EepromM24C.WriteBlock.
  rewrite Hp in *.
  rewrite Z.div_small, Z.mod_small by lia.
  rewrite uint8_small by lia.
  reflexivity.
Qed.

(** X6 at the empty block. *)
Lemma WriteBlock_shorter_than_a_page_witness :
  EepromM24C.WriteBlock (transport := bus never_fails) M24C16 1 0 0x0105 0
    (start (fun _ => 0))
  = EepromM24C.WritePage (transport := bus never_fails) 1 0 0x0105 0
      (start (fun _ => 0)).
Proof.
  apply (WriteBlock_shorter_than_a_page (list event) (bus never_fails) M24C16 1
           0 0x0105 0 (start (fun _ => 0))).
  cbn. lia.
Defined.

(** ** Running past the end of the device *)

Lemma write_pages_congruent {Bus : Type} {transport : I2C_M24C Bus}
    (fuel : nat) (f : Z -> Z) :
  (forall a, f a mod 2048 = a mod 2048) ->
  forall (pages : list (Z * Z * Z)) (w : world Bus),
    write_pages fuel pages w
    = write_pages fuel
        (map (fun p => (fst (fst p), f (snd (fst p)), snd p)) pages) w.
Proof.
  intros Hf.
  induction pages as [| [[d a] n] pages IH]; intros w; cbn [map write_pages].
  - reflexivity.
  - cbn [fst snd].
    etransitivity;
      [apply bind_cong_l, (WritePage_congruent a (f a)); symmetry; apply Hf |].
    apply bind_ext. intros _ w1. apply IH.
Qed.

(** X7.  A block write neither checks its range nor stops at the end of the
    device: it is the page writes of its schedule with every address taken
    modulo the 2048 bytes of the device, so a block that runs past the last
    address goes on at address 0. *)
Theorem WriteBlock_wraps_around_the_device :
  forall (Bus : Type) (transport : I2C_M24C Bus) (model : EepromM24CModel)
         (fuel : nat) (data address data_size : Z) (w : world Bus),
    0 <= address < 65536 ->
    0 <= data_size < 65536 ->
    EepromM24C.WriteBlock model fuel data address data_size w
    = write_pages fuel
        (map (fun p => (fst (fst p), snd (fst p) mod MEMORY_SIZE model, snd p))
             (page_schedule model data address data_size)) w
    /\ page_schedule M24C16 data 2032 32
       = [(data, 2032, 16); (data + 16, 2048, 16); (data + 32, 2064, 0)]
    /\ EepromM24C.WriteBlock M24C16 fuel data 2032 32 w
       = write_pages fuel [(data, 2032, 16); (data + 16, 0, 16); (data + 32, 16, 0)]
           w.
Proof.
  intros Bus transport model fuel data address data_size w Ha Hs.
  assert (Hwrap : forall d a s,
             0 <= a < 65536 -> 0 <= s < 65536 ->
             EepromM24C.WriteBlock model fuel d a s w
             = write_pages fuel
                 (map (fun p => (fst (fst p), snd (fst p) mod MEMORY_SIZE model,
                                 snd p))
                      (page_schedule model d a s)) w).
  { intros d a s Ha' Hs'. rewrite WriteBlock_pages by assumption.
    apply (write_pages_congruent fuel (fun a => a mod MEMORY_SIZE model)).
    intros x. destruct model. cbn [MEMORY_SIZE]. apply Z.mod_mod. lia. }
  split; [apply Hwrap; assumption |].
  assert (Hsched : page_schedule M24C16 data 2032 32
                   = [(data, 2032, 16); (data + 16, 2048, 16);
                      (data + 32, 2064, 0)]).
  { unfold page_schedule. cbn.
    change (Pos.to_nat 2) with 2%nat. cbn.
    rewrite Z.add_0_r. reflexivity. }
  split; [exact Hsched |].
  destruct model.
  rewrite (WriteBlock_pages M24C16 fuel data 2032 32 w) by lia.
  rewrite Hsched.
  apply (write_pages_congruent fuel (fun a => a mod 2048)
           (fun x => Z.mod_mod x 2048 ltac:(lia))
           [(data, 2032, 16); (data + 16, 2048, 16); (data + 32, 2064, 0)]).
Qed.

(** X7 at the last page of the device. *)
Lemma WriteBlock_wraps_around_the_device_witness :
  EepromM24C.WriteBlock (transport := bus never_fails) M24C16 1 0 2032 32
    (start (fun _ => 0))
  = write_pages (transport := bus never_fails) 1
      [(0, 2032, 16); (0 + 16, 0, 16); (0 + 32, 16, 0)] (start (fun _ => 0)).
Proof.
  apply (WriteBlock_wraps_around_the_device (list event) (bus never_fails)
           M24C16 1 0 2032 32 (start (fun _ => 0))); lia.
Defined.

(** ** Byte, halfword and erase as page writes *)

Lemma unit_run_eq (res1 res2 : outcome unit * world (list event)) :
  trace res1 = trace res2 -> ram (snd res1) = ram (snd res2) -> res1 = res2.
Proof.
  destruct res1 as [[[] |] [h1 r1]], res2 as [[[] |] [h2 r2]];
    unfold trace; cbn [fst snd is_returned i2c ram]; intros Ht Hr;
    inversion Ht; subst; reflexivity.
Qed.

(** X8.  A byte write, a halfword write and a page erase are page writes:
    they do to the transport what [WritePage] does with a buffer that holds
    the byte, the two bytes of the halfword in little-endian order, or
    [PAGE_SIZE] bytes 0xFF, on every run. *)
Theorem single_writes_are_page_writes :
  forall (sc : Script) (model : EepromM24CModel) (fuel : nat)
         (data address value : Z) (w : world (list event)),
    (ram w data = value ->
     EepromM24C.WriteByte (transport := bus sc) fuel address value w
     = EepromM24C.WritePage (transport := bus sc) fuel data address 1 w)
    /\ (ram w data = uint8 value ->
        ram w (data + 1) = uint8 (Z.shiftr value 8) ->
        EepromM24C.WriteHalfWord (transport := bus sc) fuel address value w
        = EepromM24C.WritePage (transport := bus sc) fuel data address 2 w)
    /\ ((forall i, 0 <= i < PAGE_SIZE model -> ram w (data + i) = 0xFF) ->
        EepromM24C.ErasePage (transport := bus sc) model fuel address w
        = EepromM24C.WritePage (transport := bus sc) fuel data address
            (PAGE_SIZE model) w).
Proof.
  intros sc model fuel data address value w.
  split; [| split].
  - intros Hv.
    destruct (WriteByte_trace sc fuel address value w) as [T1 R1].
    destruct (WritePage_trace sc fuel data address 1 w ltac:(lia)) as [T2 R2].
    apply unit_run_eq; [| congruence].
    rewrite T1, T2. f_equal.
    unfold Transaction.write_byte, Transaction.write_page, Zrange.
    change (Z.to_nat 1) with 1%nat. cbn [Zseq map app].
    rewrite Z.add_0_r, Hv. reflexivity.
  - intros Hlo Hhi.
    destruct (WriteHalfWord_trace sc fuel address value w) as [T1 R1].
    destruct (WritePage_trace sc fuel data address 2 w ltac:(lia)) as [T2 R2].
    apply unit_run_eq; [| congruence].
    rewrite T1, T2. f_equal.
    unfold Transaction.write_halfword, Transaction.write_page, Zrange.
    change (Z.to_nat 2) with 2%nat. cbn [Zseq map app].
    change (0 + 1) with 1.
    rewrite Z.add_0_r, Hlo, Hhi. reflexivity.
  - intros Hff.
    assert (Hp : 0 <= PAGE_SIZE model < 256) by (destruct model; cbn; lia).
    destruct (ErasePage_trace sc model fuel address w) as [T1 R1].
    destruct (WritePage_trace sc fuel data address (PAGE_SIZE model) w Hp)
      as [T2 R2].
    apply unit_run_eq; [| congruence].
    rewrite T1, T2. f_equal.
    unfold Transaction.erase_page, Transaction.write_page.
    f_equal. f_equal.
    apply map_ext_in. intros i Hi. apply Zrange_In in Hi.
    rewrite Hff by exact Hi. reflexivity.
Qed.

(** X8 at a buffer of sixteen bytes 0xFF. *)
Lemma single_writes_are_page_writes_witness :
  EepromM24C.ErasePage (transport := bus never_fails) M24C16 1 0x0100
    (start (fun _ => 0xFF))
  = EepromM24C.WritePage (transport := bus never_fails) 1 0 0x0100
      (PAGE_SIZE M24C16) (start (fun _ => 0xFF)).
Proof.
  apply (single_writes_are_page_writes never_fails M24C16 1 0 0x0100 0
           (start (fun _ => 0xFF))).
  intros i _. reflexivity.
Defined.

(** ** The buffer of a block read *)

Section BlockRead.

Variable sc : Script.

Lemma ReadBlock_frame (fuel : nat) (data address data_size : Z)
    (w : world (list event)) (p : Z) :
  ~ (data <= p < data + data_size) ->
  ram (snd (EepromM24C.ReadBlock (transport := bus sc) fuel data address
              data_size w)) p
  = ram w p.
Proof.
  intros Hp.
  unfold EepromM24C.ReadBlock.
  apply (do_while_policy sc _ (Transaction.read_block data address data_size)
           (fun r => r p = ram w p)); [| reflexivity].
  intros w0 H0. unfold Transaction.read_block.
  run_calls.
  assert (Hs : forall h, store_bytes sc h data data_size (ram w0) p = ram w p).
  { intros h. unfold store_bytes.
    destruct (Z.leb_spec data p), (Z.ltb_spec p (data + data_size));
      cbn [andb]; try exact H0. lia. }
  destruct (err sc (i2c w0));
    cbn [i2c ram]; rewrite <- ?app_assoc; cbn [app];
    do 2 eexists; (split; [reflexivity | apply Hs]).
Qed.

Lemma ReadBlock_buffer (fuel : nat) (data address data_size : Z)
    (w w' : world (list event)) :
  EepromM24C.ReadBlock (transport := bus sc) fuel data address data_size w
  = (Returned tt, w') ->
  exists h,
    i2c w' = h ++ [ReadMultipleBytes_ev data data_size; IsStateError_ev false]
    /\ forall p, data <= p < data + data_size ->
         ram w' p = uint8 (bytes_in sc h (p - data)).
Proof.
  unfold EepromM24C.ReadBlock. intros H.
  apply do_while_last in H. destruct H as (w0 & w1 & Hb & _ & ->).
  revert Hb. run_calls.
  destruct (err sc (i2c w0)); cbn [i2c ram]; intros Hb;
    inversion Hb; subst; cbn [i2c ram];
    eexists; (split; [rewrite <- app_assoc; reflexivity |]);
    intros p Hp; unfold store_bytes;
    destruct (Z.leb_spec data p), (Z.ltb_spec p (data + data_size));
    cbn [andb]; try lia; reflexivity.
Qed.

End BlockRead.

(** X9.  A block read hands the transport the caller's buffer and size
    unchanged, as one read whatever the size.  Whether it has returned or
    not, no byte outside [data, data + data_size) has changed; when it
    returns, every byte of the buffer is the one the transport delivered
    for that offset in the attempt that passed; with a size of zero the
    memory is as before. *)
Theorem ReadBlock_fills_the_buffer :
  forall (sc : Script) (fuel : nat) (data address data_size : Z)
         (w : world (list event)),
    (forall p, ~ (data <= p < data + data_size) ->
       ram (snd (EepromM24C.ReadBlock (transport := bus sc) fuel data address
                   data_size w)) p
       = ram w p)
    /\ (forall w',
          EepromM24C.ReadBlock (transport := bus sc) fuel data address data_size w
          = (Returned tt, w') ->
          exists h,
            i2c w' = h ++ [ReadMultipleBytes_ev data data_size;
                           IsStateError_ev false]
            /\ forall p, data <= p < data + data_size ->
                 ram w' p = uint8 (bytes_in sc h (p - data)))
    /\ (data_size <= 0 ->
        forall p,
          ram (snd (EepromM24C.ReadBlock (transport := bus sc) fuel data address
                      data_size w)) p
          = ram w p).
Proof.
  intros sc fuel data address data_size w.
  split; [intros p; apply ReadBlock_frame |].
  split; [intros w'; apply ReadBlock_buffer |].
  intros Hz p. apply ReadBlock_frame. lia.
Qed.

(** X9 at a read of four bytes into a buffer at 100: the byte before the
    buffer is untouched. *)
Lemma ReadBlock_fills_the_buffer_witness :
  ram (snd (EepromM24C.ReadBlock (transport := bus never_fails) 1 100 0x0100 4
              (start (fun p => p)))) 99
  = 99.
Proof.
  apply (proj1 (ReadBlock_fills_the_buffer never_fails 1 100 0x0100 4
                  (start (fun p => p))) 99).
  lia.
Defined.

(** ** The order of the calls *)

Lemma protocol_run_app (s : protocol) (l1 l2 : list event) :
  protocol_run s (l1 ++ l2)
  = match protocol_run s l1 with
    | Some s' => protocol_run s' l2
    | None => None
    end.
Proof.
  revert s. induction l1 as [| e l1 IH]; intros s; cbn [app protocol_run].
  - reflexivity.
  - destruct (protocol_step s e); [apply IH | reflexivity].
Qed.

Lemma protocol_data (bs : list event) (rest : list event) :
  Forall (fun e => exists b, e = WriteByte_ev b) bs ->
  protocol_run Transmitting (bs ++ rest) = protocol_run Transmitting rest.
Proof.
  induction 1 as [| e bs [b ->] _ IH]; cbn [app protocol_run protocol_step].
  - reflexivity.
  - exact IH.
Qed.

Lemma conforming_write_page (r : Z -> Z) (data address data_size : Z) :
  conforming (Transaction.write_page r data address data_size).
Proof.
  unfold conforming, Transaction.write_page.
  cbn [app protocol_run protocol_step].
  rewrite protocol_data
    by (apply Forall_map_const; intros i; eexists; reflexivity).
  split; reflexivity.
Qed.

Lemma conforming_erase_page (model : EepromM24CModel) (address : Z) :
  conforming (Transaction.erase_page model address).
Proof.
  unfold conforming, Transaction.erase_page.
  cbn [app protocol_run protocol_step].
  rewrite protocol_data
    by (apply Forall_map_const; intros i; eexists; reflexivity).
  split; reflexivity.
Qed.

Section Protocol.

Variable sc : Script.

Lemma protocol_attempt (tx : list event) (h : list event) (e : bool) :
  conforming tx ->
  protocol_run Idle (check_init sc h ++ tx ++ [IsStateError_ev e]) = Some Idle.
Proof.
  intros [Hc Hi]. unfold check_init.
  destruct (err sc h); cbn [app protocol_run protocol_step];
    rewrite protocol_run_app; [rewrite Hi | rewrite Hc]; reflexivity.
Qed.

Lemma retry_policy_protocol (tx : list event) :
  conforming tx ->
  forall (n : nat) (h : list event),
    exists l, snd (retry_policy sc tx n h) = h ++ l
              /\ protocol_run Idle l = Some Idle.
Proof.
  intros Htx.
  induction n as [| n IH]; intros h; cbn [retry_policy].
  - exists []. rewrite app_nil_r. split; reflexivity.
  - destruct (err sc (h ++ check_init sc h ++ tx)).
    + destruct (IH ((h ++ check_init sc h ++ tx) ++ [IsStateError_ev true]))
        as (l & E & Hl).
      exists ((check_init sc h ++ tx ++ [IsStateError_ev true]) ++ l).
      split.
      * rewrite E, <- !app_assoc. reflexivity.
      * rewrite protocol_run_app, protocol_attempt by exact Htx. exact Hl.
    + exists (check_init sc h ++ tx ++ [IsStateError_ev false]).
      cbn [snd]. split.
      * rewrite <- !app_assoc. reflexivity.
      * apply protocol_attempt. exact Htx.
Qed.

Lemma retry_policy_seq_protocol (txs : list (list event)) :
  Forall conforming txs ->
  forall (n : nat) (h : list event),
    exists l, snd (retry_policy_seq sc txs n h) = h ++ l
              /\ protocol_run Idle l = Some Idle.
Proof.
  induction 1 as [| tx txs Htx _ IH]; intros n h; cbn [retry_policy_seq].
  - exists []. rewrite app_nil_r. split; reflexivity.
  - destruct (retry_policy_protocol tx Htx n h) as (l1 & E1 & H1).
    destruct (retry_policy sc tx n h) as [[|] h1]; cbn [snd] in E1; subst h1.
    + destruct (IH n (h ++ l1)) as (l2 & E2 & H2).
      exists (l1 ++ l2). rewrite E2, app_assoc. split; [reflexivity |].
      rewrite protocol_run_app, H1. exact H2.
    + exists l1. split; [reflexivity | exact H1].
Qed.

Context {A : Type}.
Variable w : world (list event).
Variable res : outcome A * world (list event).

Lemma trace_in_protocol (tx : list event) (fuel : nat) :
  trace res = retry_policy sc tx fuel (i2c w) ->
  conforming tx ->
  in_protocol w res.
Proof.
  intros Ht Htx.
  destruct (retry_policy_protocol tx Htx fuel (i2c w)) as (l & E & Hl).
  exists l. rewrite <- Ht in E. split; assumption.
Qed.

Lemma trace_seq_in_protocol (txs : list (list event)) (fuel : nat) :
  trace res = retry_policy_seq sc txs fuel (i2c w) ->
  Forall conforming txs ->
  in_protocol w res.
Proof.
  intros Ht Htxs.
  destruct (retry_policy_seq_protocol txs Htxs fuel (i2c w)) as (l & E & Hl).
  exists l. rewrite <- Ht in E. split; assumption.
Qed.

End Protocol.

(** X10.  On every run, however many times the transport fails, the calls
    of every operation come in protocol order and leave the transport
    idle: the error state is checked before each start condition; Init is
    called after a check that reported an error and only then; a start
    condition in transmit mode is followed by the address byte; data bytes
    come only after it; the transaction ends with Stop or, after a
    restart in receive mode, with one read of the transport; and the error
    state is checked once more before anything else is done. *)
Theorem operations_keep_the_protocol :
  forall (sc : Script) (model : EepromM24CModel) (fuel : nat)
         (address value data data_size : Z) (w : world (list event)),
    in_protocol w
      (EepromM24C.WriteByte (transport := bus sc) fuel address value w)
    /\ in_protocol w
         (EepromM24C.WriteHalfWord (transport := bus sc) fuel address value w)
    /\ in_protocol w
         (EepromM24C.ReadByte (transport := bus sc) fuel address w)
    /\ in_protocol w
         (EepromM24C.ReadHalfWord (transport := bus sc) fuel address w)
    /\ in_protocol w
         (EepromM24C.ReadBlock (transport := bus sc) fuel data address data_size w)
    /\ in_protocol w
         (EepromM24C.ErasePage (transport := bus sc) model fuel address w)
    /\ in_protocol w
         (EepromM24C.ChipErase (transport := bus sc) model fuel w)
    /\ (0 <= data_size < 256 ->
        in_protocol w
          (EepromM24C.WritePage (transport := bus sc) fuel data address
             data_size w))
    /\ (0 <= address < 65536 -> 0 <= data_size < 65536 ->
        in_protocol w
          (EepromM24C.WriteBlock (transport := bus sc) model fuel data address
             data_size w)).
Proof.
  intros sc model fuel address value data data_size w.
  split; [eapply trace_in_protocol;
          [apply WriteByte_trace | split; reflexivity] |].
  split; [eapply trace_in_protocol;
          [apply WriteHalfWord_trace | split; reflexivity] |].
  split; [eapply trace_in_protocol;
          [apply ReadByte_trace | split; reflexivity] |].
  split; [eapply trace_in_protocol;
          [apply ReadHalfWord_trace | split; reflexivity] |].
  split; [eapply trace_in_protocol;
          [apply ReadBlock_trace | split; reflexivity] |].
  split; [eapply trace_in_protocol;
          [apply ErasePage_trace | apply conforming_erase_page] |].
  split; [eapply trace_seq_in_protocol;
          [apply ChipErase_trace
          | apply Forall_map_const; intros a; apply conforming_erase_page] |].
  split.
  - intros Hs. eapply trace_in_protocol;
      [apply WritePage_trace; exact Hs | apply conforming_write_page].
  - intros Ha Hs. eapply trace_seq_in_protocol;
      [apply WriteBlock_trace; assumption
      | apply Forall_map_const; intros p; apply conforming_write_page].
Qed.

(** X10 at a block write that is retried. *)
Lemma operations_keep_the_protocol_witness :
  in_protocol (start (fun _ => 0))
    (EepromM24C.WriteBlock (transport := bus (fails_at 25)) M24C16 2 0 0x00F0 16
       (start (fun _ => 0))).
Proof.
  destruct (operations_keep_the_protocol (fails_at 25) M24C16 2 0x00F0 0 0 16
              (start (fun _ => 0)))
    as (_ & _ & _ & _ & _ & _ & _ & _ & H).
  apply H; lia.
Defined.

(** ** The budget of attempts *)

Section Budget.

Context {Bus : Type} {transport : I2C_M24C Bus}.







End Budget.



(** ** What a chip erase writes *)

Lemma erase_page_write (model : EepromM24CModel) (address : Z) :
  Transaction.erase_page model address
  = write_transaction (EepromM24C.HandleDeviceSelectCode address)
      (uint8 address) (repeat 0xFF (Z.to_nat (PAGE_SIZE model))).
Proof. destruct model. reflexivity. Qed.

Lemma concat_repeat {X : Type} (x : X) (m : nat) (n : nat) :
  concat (repeat (repeat x m) n) = repeat x (n * m).
Proof.
  induction n as [| n IH]; cbn [repeat concat Nat.mul].
  - reflexivity.
  - rewrite IH, repeat_app. reflexivity.
Qed.

Lemma map_const_repeat {X Y : Type} (y : Y) (l : list X) :
  map (fun _ => y) l = repeat y (length l).
Proof.
  induction l as [| x l IH]; cbn [map length repeat].
  - reflexivity.
  - rewrite IH. reflexivity.
Qed.

(** X12.  On a transport that reports no error after a transaction, a chip
    erase returns having sent as data [MEMORY_SIZE] bytes, all 0xFF: with
    the 128 page addresses all different (X2), one for each byte of the
    device.  The caller's memory is not touched. *)
Theorem ChipErase_writes_0xFF_everywhere :
  forall (sc : Script) (model : EepromM24CModel) (fuel : nat)
         (w : world (list event)),
    healthy sc ->
    exists l,
      trace (EepromM24C.ChipErase (transport := bus sc) model (S fuel) w)
      = (true, i2c w ++ l)
      /\ data_bytes Outside l = repeat 0xFF (Z.to_nat (MEMORY_SIZE model))
      /\ ram (snd (EepromM24C.ChipErase (transport := bus sc) model (S fuel) w))
         = ram w.
Proof.
  intros sc model fuel w Hsc.
  pose (triple := fun a : Z =>
                    (EepromM24C.HandleDeviceSelectCode a, uint8 a,
                     repeat 0xFF (Z.to_nat (PAGE_SIZE model)))).
  assert (Htx : map (Transaction.erase_page model) (erase_offsets model)
                = map (fun t => write_transaction (fst (fst t)) (snd (fst t))
                                  (snd t))
                      (map triple (erase_offsets model))).
  { rewrite map_map. apply map_ext. intros a. apply erase_page_write. }
  assert (Hc : Forall closing (map (Transaction.erase_page model)
                                   (erase_offsets model)))
    by (apply Forall_map_const; intros a; apply closing_erase_page).
  destruct (healthy_each_once sc Hsc _ Hc fuel (i2c w)) as (l & E & Hl).
  exists l. rewrite ChipErase_trace.
  split; [exact E |]. split.
  - rewrite Htx in Hl. rewrite (one_attempt_each_data _ _ Hl).
    rewrite map_map. cbn [triple snd].
    rewrite map_const_repeat, concat_repeat.
    unfold erase_offsets. rewrite length_map, Zrange_length.
    destruct model. reflexivity.
  - rewrite ChipErase_pages. apply erase_pages_trace.
Qed.

(** X12 on the transport that never reports an error. *)
Lemma ChipErase_writes_0xFF_everywhere_witness :
  exists l,
    trace (EepromM24C.ChipErase (transport := bus never_fails) M24C16 1
             (start (fun _ => 0)))
    = (true, i2c (start (fun _ => 0)) ++ l)
    /\ data_bytes Outside l = repeat 0xFF (Z.to_nat (MEMORY_SIZE M24C16))
    /\ ram (snd (EepromM24C.ChipErase (transport := bus never_fails) M24C16 1
                   (start (fun _ => 0))))
       = (fun _ => 0).
Proof.
  apply (ChipErase_writes_0xFF_everywhere never_fails M24C16 0
           (start (fun _ => 0)) never_fails_healthy).
Defined.

(** ** The caller's memory *)

Section Memory.

Context {Bus : Type} {transport : I2C_M24C Bus}.

Lemma keeps_ram_ret {A : Type} (a : A) : keeps_ram (ret (Bus := Bus) a).
Proof. intros w. reflexivity. Qed.

Lemma keeps_ram_bind {A B : Type} (m : M Bus A) (f : A -> M Bus B) :
  keeps_ram m -> (forall a, keeps_ram (f a)) -> keeps_ram (bind m f).
Proof.
  intros Hm Hf w. unfold bind. specialize (Hm w).
  destruct (m w) as [[a |] w1]; cbn [snd] in *.
  - rewrite Hf. exact Hm.
  - exact Hm.
Qed.

Lemma keeps_ram_if {A : Type} (b : bool) (m m' : M Bus A) :
  keeps_ram m -> keeps_ram m' -> keeps_ram (if b then m else m').
Proof. destruct b; auto. Qed.

Lemma keeps_ram_Init : keeps_ram EepromM24C.i2c_Init.
Proof. intros w. reflexivity. Qed.

Lemma keeps_ram_StartPolling (d : Z) (m : I2CMode) (p : bool) :
  keeps_ram (EepromM24C.i2c_StartPolling d m p).
Proof. intros w. reflexivity. Qed.

Lemma keeps_ram_IsStateError : keeps_ram EepromM24C.i2c_IsStateError.
Proof.
  intros w. unfold EepromM24C.i2c_IsStateError.
  destruct (IsStateError (i2c w)). reflexivity.
Qed.

Lemma keeps_ram_ReadByte : keeps_ram EepromM24C.i2c_ReadByte.
Proof.
  intros w. unfold EepromM24C.i2c_ReadByte.
  destruct (ReadByte (i2c w)). reflexivity.
Qed.

Lemma keeps_ram_ReadHalfWord : keeps_ram EepromM24C.i2c_ReadHalfWord.
Proof.
  intros w. unfold EepromM24C.i2c_ReadHalfWord.
  destruct (ReadHalfWord (i2c w)). reflexivity.
Qed.

Lemma keeps_ram_WriteByte (b : Z) : keeps_ram (EepromM24C.i2c_WriteByte b).
Proof. intros w. reflexivity. Qed.

Lemma keeps_ram_Stop : keeps_ram EepromM24C.i2c_Stop.
Proof. intros w. reflexivity. Qed.

Lemma keeps_ram_deref (p : Z) : keeps_ram (EepromM24C.deref (Bus := Bus) p).
Proof. intros w. reflexivity. Qed.

Lemma keeps_ram_do_while {A : Type} (body : M Bus A) (cond : M Bus bool) :
  keeps_ram body -> keeps_ram cond ->
  forall fuel, keeps_ram (do_while fuel body cond).
Proof.
  intros Hb Hc. induction fuel as [| fuel IH]; cbn [do_while].
  - intros w. reflexivity.
  - apply keeps_ram_bind; [exact Hb |]. intros a.
    apply keeps_ram_bind; [exact Hc |]. intros c.
    apply keeps_ram_if; [exact IH | apply keeps_ram_ret].
Qed.

Lemma keeps_ram_for_loop (test : Z -> bool) (next : Z -> Z)
    (body : Z -> M Bus unit) :
  (forall i, keeps_ram (body i)) ->
  forall n i, keeps_ram (for_loop n i test next body).
Proof.
  intros Hb. induction n as [| n IH]; intros i; cbn [for_loop].
  - intros w. reflexivity.
  - apply keeps_ram_if; [| apply keeps_ram_ret].
    apply keeps_ram_bind; [apply Hb |]. intros _. apply IH.
Qed.

End Memory.

Create HintDb keeps_ram.

#[local] Hint Resolve keeps_ram_ret keeps_ram_bind keeps_ram_if keeps_ram_Init
  keeps_ram_StartPolling keeps_ram_IsStateError keeps_ram_ReadByte
  keeps_ram_ReadHalfWord keeps_ram_WriteByte keeps_ram_Stop keeps_ram_deref
  keeps_ram_do_while keeps_ram_for_loop : keeps_ram.

Lemma keeps_ram_WritePage {Bus : Type} {transport : I2C_M24C Bus}
    (fuel : nat) (data address data_size : Z) :
  keeps_ram (EepromM24C.WritePage fuel data address data_size).
Proof. unfold EepromM24C.WritePage. auto 20 with keeps_ram. Qed.

Lemma keeps_ram_WriteBlock_loop {Bus : Type} {transport : I2C_M24C Bus}
    (model : EepromM24CModel) (fuel : nat) :
  forall (pages : nat) (data address : Z),
    keeps_ram (EepromM24C.WriteBlock_loop model fuel pages data address).
Proof.
  induction pages as [| pages IH]; intros data address;
    cbn [EepromM24C.WriteBlock_loop].
  - apply keeps_ram_ret.
  - apply keeps_ram_bind; [apply keeps_ram_WritePage | intros _; apply IH].
Qed.

(** X13.  On every transport and every run, returned or not, the write
    operations, the erase operations and the byte and halfword reads leave
    the caller's memory as it was: the buffer of a page or block write is
    only read.  The block read is the one operation that hands a buffer to
    the transport. *)
Theorem only_ReadBlock_writes_memory :
  forall (Bus : Type) (transport : I2C_M24C Bus) (model : EepromM24CModel)
         (fuel : nat) (address value data data_size : Z),
    keeps_ram (EepromM24C.WriteByte fuel address value)
    /\ keeps_ram (EepromM24C.WriteHalfWord fuel address value)
    /\ keeps_ram (EepromM24C.WritePage fuel data address data_size)
    /\ keeps_ram (EepromM24C.WriteBlock model fuel data address data_size)
    /\ keeps_ram (EepromM24C.ReadByte fuel address)
    /\ keeps_ram (EepromM24C.ReadHalfWord fuel address)
    /\ keeps_ram (EepromM24C.ErasePage model fuel address)
    /\ keeps_ram (EepromM24C.ChipErase model fuel)
    /\ ram (snd (EepromM24C.ReadBlock (transport := bus never_fails) 1 0 0 1
                   (start (fun _ => 0xFF)))) 0
       <> 0xFF.
Proof.
  intros Bus transport model fuel address value data data_size.
  split; [unfold EepromM24C.WriteByte; auto 20 with keeps_ram |].
  split; [unfold EepromM24C.WriteHalfWord; auto 20 with keeps_ram |].
  split; [apply keeps_ram_WritePage |].
  split.
  { unfold EepromM24C.WriteBlock.
    apply keeps_ram_bind; [apply keeps_ram_WriteBlock_loop |].
    intros da. apply keeps_ram_WritePage. }
  split; [unfold EepromM24C.ReadByte; auto 20 with keeps_ram |].
  split; [unfold EepromM24C.ReadHalfWord; auto 20 with keeps_ram |].
  split; [unfold EepromM24C.ErasePage; auto 20 with keeps_ram |].
  split.
  { unfold EepromM24C.ChipErase. apply keeps_ram_for_loop. intros i.
    unfold EepromM24C.ErasePage. auto 20 with keeps_ram. }
  vm_compute. discriminate.
Qed.
